(** * 3DcarVisual: part collection, material and lighting selection, chat commands

    A shallow embedding of [src/main.js].  The three.js renderer, the glTF
    loader and the DOM are external collaborators; what is embedded here is the
    logic main.js itself contains: the collection of the car's parts out of the
    loaded scene graph ([initCar]), the material and lighting selectors
    ([updateMaterials], [updateLighting]), the tint helper ([setMeshColor]) and
    the chat command handler ([handleCommand]). *)

From Stdlib Require Import Ascii String.
From stdpp Require Import gmap strings list sorting.

Set Warnings "-register-all".
Local Open Scope string_scope.

(** ** Text

    Text is a [string] over 8-bit characters, read as the code points
    U+0000..U+00FF.  [toLowerCase] is JavaScript's [String.prototype.toLowerCase]
    on that range: A..Z, and the Latin-1 capitals U+00C0..U+00DE without the
    multiplication sign U+00D7, move up by 32; every other character stays. *)

Module Text.

Definition toLowerCaseChar (c : ascii) : ascii :=
  let n := nat_of_ascii c in
  if ((65 <=? n) && (n <=? 90)
      || (192 <=? n) && (n <=? 222) && negb (n =? 215))%nat
  then ascii_of_nat (n + 32)
  else c.

Fixpoint toLowerCase (s : string) : string :=
  match s with
  | EmptyString => EmptyString
  | String c s' => String (toLowerCaseChar c) (toLowerCase s')
  end.

(** [s.startsWith(pat)]. *)
Fixpoint startsWith (s pat : string) : bool :=
  match pat, s with
  | EmptyString, _ => true
  | String _ _, EmptyString => false
  | String p pat', String c s' => Ascii.eqb c p && startsWith s' pat'
  end.

(** [s.includes(pat)]: [pat] occurs in [s] as a contiguous substring. *)
Fixpoint includes (s pat : string) : bool :=
  startsWith s pat
  || match s with
     | EmptyString => false
     | String _ s' => includes s' pat
     end.

(** The regular-expression class [\w]: letters, digits and the underscore. *)
Definition isWordChar (c : ascii) : bool :=
  let n := nat_of_ascii c in
  ((48 <=? n) && (n <=? 57) || (65 <=? n) && (n <=? 90)
   || (97 <=? n) && (n <=? 122) || (n =? 95))%nat.

(** Is there a word character at offset [k] of [s]?  Past the end there is
    none, which is what makes the end of the text a word boundary. *)
Definition wordCharAt (s : string) (k : nat) : bool :=
  match String.get k s with
  | Some c => isWordChar c
  | None => false
  end.

(** The pattern [\bw\b] for a word [w] that starts and ends with word
    characters: an occurrence of [w] with no word character right before it
    and none right after it.  [prevWord] tells whether the character before
    the current position is a word character. *)
Fixpoint wholeWordFrom (prevWord : bool) (w s : string) : bool :=
  (negb prevWord && startsWith s w && negb (wordCharAt s (String.length w)))
  || match s with
     | EmptyString => false
     | String c s' => wholeWordFrom (isWordChar c) w s'
     end.

Definition wholeWord (w s : string) : bool := wholeWordFrom false w s.

(** [/(\bbody\b|paint|carpaint|bodywork|car_body)/i].  Every caller tests a
    text that was lower-cased first, on which the flag [i] adds nothing. *)
Definition bodyRegex (n : string) : bool :=
  wholeWord "body" n || includes n "paint" || includes n "carpaint"
  || includes n "bodywork" || includes n "car_body".

(** [/(glass|rim|tire|wheel|trim|logo|emblem|interior|seat|light|lamp)/]. *)
Definition exclusionKeywords : list string :=
  ["glass"; "rim"; "tire"; "wheel"; "trim"; "logo"; "emblem"; "interior";
   "seat"; "light"; "lamp"].

Definition exclusionRegex (n : string) : bool :=
  existsb (includes n) exclusionKeywords.

(** [/(glass|windshield|window)/i], again on lower-cased text. *)
Definition glassRegex (n : string) : bool :=
  includes n "glass" || includes n "windshield" || includes n "window".

End Text.

Import Text.

(** ** Scene graph

    A three.js [Object3D]: its [name], whether it is a [Mesh], its children. *)

Inductive Object3D : Type :=
  mkObject3D { name : string; isMesh : bool; children : list Object3D }.

(** [Object3D.traverse] visits the object itself and then, child after child,
    each child's subtree: the list of visited objects in visiting order. *)
Fixpoint traverse (o : Object3D) : list Object3D :=
  match o with
  | mkObject3D _ _ cs => o :: flat_map traverse cs
  end.

(** A JavaScript reference to an object of the car model is modelled by the
    object's position in the traversal of the model: two references are the
    same object exactly when the positions are equal. *)
Definition NodeRef : Type := nat.

Definition nodes (root : Object3D) : list (NodeRef * Object3D) :=
  imap (fun i o => (i, o)) (traverse root).

(** [Object3D.getObjectByName]: the first object in traversal order that
    carries the name, or [undefined]. *)
Definition getObjectByName (root : Object3D) (n : string)
  : option (NodeRef * Object3D) :=
  List.find (fun p => String.eqb (name p.2) n) (nodes root).

Definition collectMeshesByNamePattern (root : Object3D) (regex : string -> bool)
  : list NodeRef :=
  (List.filter (fun p => isMesh p.2 && regex (toLowerCase (name p.2)))
               (nodes root)).*1.

(** [uniquePush(arr, item)]; [None] is a falsy [item]. *)
Definition uniquePush (arr : list NodeRef) (item : option NodeRef)
  : list NodeRef :=
  match item with
  | Some x => if bool_decide (x ∈ arr) then arr else arr ++ [x]
  | None => arr
  end.
Arguments uniquePush : simpl never.

(** [if (m && m.isMesh) uniquePush(arr, m)]. *)
Definition pushIfMesh (arr : list NodeRef) (m : option (NodeRef * Object3D))
  : list NodeRef :=
  match m with
  | Some (i, o) => if isMesh o then uniquePush arr (Some i) else arr
  | None => arr
  end.

Definition pushAll (arr : list NodeRef) (ms : list NodeRef) : list NodeRef :=
  fold_left (fun acc m => uniquePush acc (Some m)) ms arr.

Record CarParts : Type := mkCarParts {
  body : list NodeRef;
  rims : list NodeRef;
  glass : list NodeRef;
  doors : option (list NodeRef)   (* no [doors] property before the model loads *)
}.

Definition emptyCarParts : CarParts :=
  {| body := []; rims := []; glass := []; doors := None |}.

(** *** The part collection of [initCar] (main.js, lines 162-199) *)

(** Step 1, the explicit name. *)
Definition collectExplicitBody (carModel : Object3D) (arr : list NodeRef)
  : list NodeRef :=
  pushIfMesh arr (getObjectByName carModel "body").

(** Step 2, the naming patterns. *)
Definition collectPatternBody (carModel : Object3D) (arr : list NodeRef)
  : list NodeRef :=
  pushAll arr (collectMeshesByNamePattern carModel bodyRegex).

(** Step 3, the callback of the fallback traversal. *)
Definition fallbackVisit (arr : list NodeRef) (p : NodeRef * Object3D)
  : list NodeRef :=
  if negb (isMesh p.2) then arr
  else
    let n := toLowerCase (name p.2) in
    if negb (exclusionRegex n) then uniquePush arr (Some p.1) else arr.

Definition collectFallbackBody (carModel : Object3D) (arr : list NodeRef)
  : list NodeRef :=
  if (length arr =? 0)%nat then fold_left fallbackVisit (nodes carModel) arr
  else arr.

Definition collectBody (carModel : Object3D) (arr : list NodeRef)
  : list NodeRef :=
  collectFallbackBody carModel
    (collectPatternBody carModel (collectExplicitBody carModel arr)).

Definition rimNames : list string :=
  ["rim_fl"; "rim_fr"; "rim_rr"; "rim_rl"; "trim"].

Definition collectRims (carModel : Object3D) (arr : list NodeRef)
  : list NodeRef :=
  fold_left (fun acc n => pushIfMesh acc (getObjectByName carModel n))
            rimNames arr.

Definition collectGlass (carModel : Object3D) (arr : list NodeRef)
  : list NodeRef :=
  let glassNamed := collectMeshesByNamePattern carModel glassRegex in
  pushIfMesh (pushAll arr glassNamed) (getObjectByName carModel "glass").

Definition collectDoors (carModel : Object3D) : list NodeRef :=
  let leftDoor := getObjectByName carModel "door_left" in
  let rightDoor := getObjectByName carModel "door_right" in
  uniquePush (uniquePush [] (fst <$> leftDoor)) (fst <$> rightDoor).

Definition collectCarParts (carModel : Object3D) (carParts : CarParts)
  : CarParts :=
  {| body := collectBody carModel (body carParts);
     rims := collectRims carModel (rims carParts);
     glass := collectGlass carModel (glass carParts);
     doors := Some (collectDoors carModel) |}.

(** ** Materials, selectors, lights *)

(** A material of the library.  main.js reads only the [name]; of the visual
    parameters the colour is kept, the others (metalness, roughness, opacity)
    are never read back. *)
Module Material.
Record t : Type := mk { name : string; color : Z }.
End Material.

(** [materialsLib]: the two categories, in declaration order. *)
Module Lib.
Record t : Type := mk { main : list Material.t; glass : list Material.t }.
End Lib.

(** What [updateMaterials] stores in the [material] property of a part:
    [materialsLib.main[i]], [materialsLib.glass[i]], or [undefined] when the
    index is outside the array. *)
Inductive MaterialSlot : Type :=
| Undefined
| MainMaterial (i : nat)
| GlassMaterial (i : nat).

(** An HTML [select]: the values of its options and [selectedIndex], which is
    -1 when no option is selected. *)
Record Select : Type := mkSelect { options : list string; selectedIndex : Z }.

(** [arr[i]] for a number [i]: [None] is [undefined]. *)
Definition at_index {A : Type} (arr : list A) (i : Z) : option A :=
  if (i <? 0)%Z then None else arr !! Z.to_nat i.

(** [select.value]: the value of the selected option, the empty string when
    there is none. *)
Definition value (sel : Select) : string :=
  default "" (at_index (options sel) (selectedIndex sel)).

(** [select.value = v]: the first option with that value becomes the selected
    one; with no such option nothing is selected. *)
Definition setValue (sel : Select) (v : string) : Select :=
  {| options := options sel;
     selectedIndex :=
       match list_find (fun o => o = v) (options sel) with
       | Some (i, _) => Z.of_nat i
       | None => (-1)%Z
       end |}.

(** [select.selectedIndex = i]. *)
Definition setSelectedIndex (sel : Select) (i : Z) : Select :=
  {| options := options sel;
     selectedIndex :=
       if ((0 <=? i) && (i <? Z.of_nat (length (options sel))))%Z then i
       else (-1)%Z |}.

(** [menu.add(option)].  What the browser selects by itself when options
    arrive is not modelled: main.js sets [selectedIndex] right after filling
    the menus. *)
Definition addOption (n : string) (menu : Select) : Select :=
  {| options := options menu ++ [n]; selectedIndex := selectedIndex menu |}.

(** The seven lights [initLights] creates. *)
Inductive Light : Type :=
| directional | ambient | night | dark | hemi | point1 | point2.

#[global] Instance Light_eq_dec : EqDecision Light.
Proof. solve_decision. Defined.

(** [allLights] as [initLights] leaves it; the keys in insertion order, which
    is the order of [Object.keys] and [Object.values]. *)
Definition allLights : list (string * list Light) :=
  [("directional", [directional]);
   ("ambient", [ambient]);
   ("night", [night]);
   ("dark", [dark]);
   ("showroom", [hemi; point1; point2])].

(** [allLights] is a plain object, so [allLights[key]] also finds what
    [Object.prototype] provides: functions (and, under [__proto__], the
    prototype itself), all truthy and none with a [forEach]. *)
Definition objectPrototypeKeys : list string :=
  ["constructor"; "__defineGetter__"; "__defineSetter__"; "hasOwnProperty";
   "__lookupGetter__"; "__lookupSetter__"; "isPrototypeOf";
   "propertyIsEnumerable"; "toString"; "valueOf"; "__proto__";
   "toLocaleString"].

Inductive Property (A : Type) : Type :=
| Own (v : A)
| Inherited
| Absent.
Arguments Own {A} v.
Arguments Inherited {A}.
Arguments Absent {A}.

Fixpoint assoc {A : Type} (key : string) (obj : list (string * A)) : option A :=
  match obj with
  | [] => None
  | (k, v) :: obj' => if String.eqb k key then Some v else assoc key obj'
  end.

Definition getProperty {A : Type} (obj : list (string * A)) (key : string)
  : Property A :=
  match assoc key obj with
  | Some v => Own v
  | None =>
      if bool_decide (key ∈ objectPrototypeKeys) then Inherited else Absent
  end.

(** ** The chat log *)

Inductive Sender : Type := Bot | You.

(** The texts main.js writes to the log:
    - [StillLoading]: 'Car model is still loading. Try again in a moment.'
    - [OpeningDoors]: 'Opening doors.'
    - [BodyColorSet n]: 'Body color set to n.', and alike for rims and glass
    - [LightingSet n]: 'Lighting set to n.'
    - [NotUnderstood]: the help text 'I didn't understand that. Try a command
      like ...'
    - [Said t]: any other text, such as what the user typed. *)
Inductive LogText : Type :=
| StillLoading
| OpeningDoors
| BodyColorSet (n : string)
| RimColorSet (n : string)
| GlassColorSet (n : string)
| LightingSet (n : string)
| NotUnderstood
| Said (t : string).

(** ** Program state: the module-level variables of main.js and what they
    refer to *)

Record State : Type := mkState {
  carModel : option Object3D;
  carParts : CarParts;
  materialsLib : option Lib.t;
  bodyMatSelect : Select;
  rimMatSelect : Select;
  glassMatSelect : Select;
  lightingSelect : Select;
  (* the [material] property of the model's objects, where main.js wrote it *)
  material : gmap NodeRef MaterialSlot;
  (* the [visible] property of the lights *)
  visible : Light -> bool;
  chatLog : list (Sender * LogText)
}.

Definition set_carModel (v : option Object3D) (s : State) : State :=
  mkState v (carParts s) (materialsLib s) (bodyMatSelect s) (rimMatSelect s)
          (glassMatSelect s) (lightingSelect s) (material s) (visible s)
          (chatLog s).
Definition set_carParts (v : CarParts) (s : State) : State :=
  mkState (carModel s) v (materialsLib s) (bodyMatSelect s) (rimMatSelect s)
          (glassMatSelect s) (lightingSelect s) (material s) (visible s)
          (chatLog s).
Definition set_materialsLib (v : option Lib.t) (s : State) : State :=
  mkState (carModel s) (carParts s) v (bodyMatSelect s) (rimMatSelect s)
          (glassMatSelect s) (lightingSelect s) (material s) (visible s)
          (chatLog s).
Definition set_bodyMatSelect (v : Select) (s : State) : State :=
  mkState (carModel s) (carParts s) (materialsLib s) v (rimMatSelect s)
          (glassMatSelect s) (lightingSelect s) (material s) (visible s)
          (chatLog s).
Definition set_rimMatSelect (v : Select) (s : State) : State :=
  mkState (carModel s) (carParts s) (materialsLib s) (bodyMatSelect s) v
          (glassMatSelect s) (lightingSelect s) (material s) (visible s)
          (chatLog s).
Definition set_glassMatSelect (v : Select) (s : State) : State :=
  mkState (carModel s) (carParts s) (materialsLib s) (bodyMatSelect s)
          (rimMatSelect s) v (lightingSelect s) (material s) (visible s)
          (chatLog s).
Definition set_lightingSelect (v : Select) (s : State) : State :=
  mkState (carModel s) (carParts s) (materialsLib s) (bodyMatSelect s)
          (rimMatSelect s) (glassMatSelect s) v (material s) (visible s)
          (chatLog s).
Definition set_material (v : gmap NodeRef MaterialSlot) (s : State) : State :=
  mkState (carModel s) (carParts s) (materialsLib s) (bodyMatSelect s)
          (rimMatSelect s) (glassMatSelect s) (lightingSelect s) v (visible s)
          (chatLog s).
Definition set_visible (v : Light -> bool) (s : State) : State :=
  mkState (carModel s) (carParts s) (materialsLib s) (bodyMatSelect s)
          (rimMatSelect s) (glassMatSelect s) (lightingSelect s) (material s) v
          (chatLog s).

(** [addMessage(sender, text)] appends one line to the log. *)
Definition addMessage (sender : Sender) (text : LogText) (s : State) : State :=
  mkState (carModel s) (carParts s) (materialsLib s) (bodyMatSelect s)
          (rimMatSelect s) (glassMatSelect s) (lightingSelect s) (material s)
          (visible s) (chatLog s ++ [(sender, text)]).

(** *** Exceptions

    A call either returns, leaving a state, or throws, leaving the state it
    had reached. *)

Inductive Error : Type := TypeError.

Inductive Result : Type :=
| Returned (s : State)
| Thrown (e : Error) (s : State).

Definition bind (r : Result) (k : State -> Result) : Result :=
  match r with
  | Returned s => k s
  | Thrown e s => Thrown e s
  end.

Notation "s '<-' r ';;' k" := (bind r (fun s => k))
  (at level 100, r at next level, right associativity, only parsing).

Definition finalState (r : Result) : State :=
  match r with
  | Returned s => s
  | Thrown _ s => s
  end.

(** ** The functions of main.js *)

(** [arr.forEach((part) => (part.material = mat))]. *)
Definition assignMaterial (mat : MaterialSlot) (arr : list NodeRef)
    (store : gmap NodeRef MaterialSlot) : gmap NodeRef MaterialSlot :=
  fold_left (fun st part => <[part := mat]> st) arr store.

Definition mainAt (i : Z) (lib : Lib.t) : MaterialSlot :=
  match at_index (Lib.main lib) i with
  | Some _ => MainMaterial (Z.to_nat i)
  | None => Undefined
  end.

Definition glassAt (i : Z) (lib : Lib.t) : MaterialSlot :=
  match at_index (Lib.glass lib) i with
  | Some _ => GlassMaterial (Z.to_nat i)
  | None => Undefined
  end.

(** [updateMaterials]: reading [materialsLib.main] throws while [materialsLib]
    is still undefined. *)
Definition updateMaterials (s : State) : Result :=
  match materialsLib s with
  | None => Thrown TypeError s
  | Some lib =>
      let bodyMat := mainAt (selectedIndex (bodyMatSelect s)) lib in
      let rimMat := mainAt (selectedIndex (rimMatSelect s)) lib in
      let glassMat := glassAt (selectedIndex (glassMatSelect s)) lib in
      Returned
        (set_material
           (assignMaterial glassMat (glass (carParts s))
              (assignMaterial rimMat (rims (carParts s))
                 (assignMaterial bodyMat (body (carParts s)) (material s))))
           s)
  end.

(** [lights.forEach((light) => (light.visible = b))]. *)
Definition setVisible (b : bool) (lights : list Light) (vis : Light -> bool)
  : Light -> bool :=
  fold_left (fun v light => fun l => if decide (l = light) then b else v l)
            lights vis.

(** [updateLighting]. *)
Definition updateLighting (s : State) : Result :=
  let mode := value (lightingSelect s) in
  let s1 := set_visible (setVisible false (concat allLights.*2) (visible s)) s in
  if negb (String.eqb mode "none") then
    match getProperty allLights mode with
    | Own lights => Returned (set_visible (setVisible true lights (visible s1)) s1)
    | Inherited => Thrown TypeError s1      (* no [forEach] to call *)
    | Absent => Returned s1
    end
  else Returned s1.

(** [ensureCarReady]: the state it leaves and the boolean it returns. *)
Definition ensureCarReady (s : State) : State * bool :=
  if negb (bool_decide (is_Some (carModel s)))
     || (length (body (carParts s)) =? 0)%nat
  then (addMessage Bot StillLoading s, false)
  else (s, true).

(** The argument of [handleCommand]: a string, [null] or [undefined]. *)
Inductive Raw : Type :=
| RawNull
| RawUndefined
| RawString (str : string).

(** [(raw || '')]. *)
Definition orEmpty (raw : Raw) : string :=
  match raw with
  | RawString str => str
  | RawNull | RawUndefined => ""
  end.

(** The [for ... of] loops of [handleCommand] stop at the first entry whose
    lower-cased name occurs in the text. *)
Definition firstNamed {A : Type} (nameOf : A -> string) (text : string)
    (entries : list A) : option A :=
  List.find (fun e => includes text (toLowerCase (nameOf e))) entries.

Section Commands.

(** [openDoors] is called by [handleCommand] and defined in no file under
    src/: it is a parameter here, some action on the state that returns. *)
Variable openDoors : State -> State.

(** The lighting intent (main.js, lines 404-415) and the fallback behind it. *)
Definition lightingIntent (text : string) (s : State) : Result :=
  let notUnderstood := Returned (addMessage Bot NotUnderstood s) in
  if includes text "light" || includes text "lighting" then
    let lightingOptions := allLights.*1 in
    match firstNamed id text lightingOptions with
    | Some option =>
        s1 <- updateLighting
                (set_lightingSelect (setValue (lightingSelect s) option) s) ;;
        Returned (addMessage Bot (LightingSet option) s1)
    | None => notUnderstood
    end
  else notUnderstood.

(** The glass intent (lines 392-402) and what follows it. *)
Definition glassIntent (text : string) (s : State) : Result :=
  if includes text "glass" then
    match materialsLib s with
    | None => Thrown TypeError s
    | Some lib =>
        match firstNamed Material.name text (Lib.glass lib) with
        | Some mat =>
            s1 <- updateMaterials
                    (set_glassMatSelect
                       (setValue (glassMatSelect s) (Material.name mat)) s) ;;
            Returned (addMessage Bot (GlassColorSet (Material.name mat)) s1)
        | None => lightingIntent text s
        end
    end
  else lightingIntent text s.

(** The rim intent (lines 380-390) and what follows it. *)
Definition rimIntent (text : string) (s : State) : Result :=
  if includes text "rim" || includes text "details" then
    match materialsLib s with
    | None => Thrown TypeError s
    | Some lib =>
        match firstNamed Material.name text (Lib.main lib) with
        | Some mat =>
            s1 <- updateMaterials
                    (set_rimMatSelect
                       (setValue (rimMatSelect s) (Material.name mat)) s) ;;
            Returned (addMessage Bot (RimColorSet (Material.name mat)) s1)
        | None => glassIntent text s
        end
    end
  else glassIntent text s.

(** The body intent (lines 368-378) and what follows it. *)
Definition bodyIntent (text : string) (s : State) : Result :=
  if includes text "body" || includes text "paint" then
    match materialsLib s with
    | None => Thrown TypeError s
    | Some lib =>
        match firstNamed Material.name text (Lib.main lib) with
        | Some mat =>
            s1 <- updateMaterials
                    (set_bodyMatSelect
                       (setValue (bodyMatSelect s) (Material.name mat)) s) ;;
            Returned (addMessage Bot (BodyColorSet (Material.name mat)) s1)
        | None => rimIntent text s
        end
    end
  else rimIntent text s.

(** [handleCommand(raw)]. *)
Definition handleCommand (raw : Raw) (s : State) : Result :=
  let text := toLowerCase (orEmpty raw) in
  if includes text "open" && includes text "door" then
    Returned (addMessage Bot OpeningDoors (openDoors s))
  else bodyIntent text s.


End Commands.

(** *** Start-up *)

(** [initMaterials]. *)
Definition initMaterials (s : State) : State :=
  set_materialsLib
    (Some {| Lib.main :=
               [Material.mk "orange" 0xff4400; Material.mk "blue" 0x001166;
                Material.mk "red" 0x990000; Material.mk "black" 0x000000;
                Material.mk "white" 0xffffff; Material.mk "metallic" 0x555555];
             Lib.glass :=
               [Material.mk "clear" 0xffffff; Material.mk "smoked" 0x000000;
                Material.mk "blue" 0x001133; Material.mk "tinted" 0x333333] |})
    s.

(** [initMaterialSelectionMenus]; it runs right after [initMaterials], and
    reading [materialsLib.main] would throw otherwise. *)
Definition initMaterialSelectionMenus (s : State) : Result :=
  match materialsLib s with
  | None => Thrown TypeError s
  | Some lib =>
      let s1 :=
        fold_left
          (fun st mat =>
             set_rimMatSelect
               (addOption (Material.name mat) (rimMatSelect st))
               (set_bodyMatSelect
                  (addOption (Material.name mat) (bodyMatSelect st)) st))
          (Lib.main lib) s in
      let s2 :=
        fold_left
          (fun st mat =>
             set_glassMatSelect
               (addOption (Material.name mat) (glassMatSelect st)) st)
          (Lib.glass lib) s1 in
      Returned
        (set_glassMatSelect (setSelectedIndex (glassMatSelect s2) 0)
           (set_rimMatSelect (setSelectedIndex (rimMatSelect s2) 5)
              (set_bodyMatSelect (setSelectedIndex (bodyMatSelect s2) 3) s2)))
  end.

(** The end of [initLights]: every light starts invisible. *)
Definition initLights (s : State) : State :=
  set_visible (setVisible false (concat allLights.*2) (visible s)) s.

(** [carModel.add(shadow)]: the shadow plane, an unnamed mesh, becomes the
    last child of the model. *)
Definition shadow : Object3D := mkObject3D "" true [].

Definition add (parent child : Object3D) : Object3D :=
  mkObject3D (name parent) (isMesh parent) (children parent ++ [child]).

(** The callback [initCar] hands to the loader, run with the first child of
    the loaded scene. *)
Definition initCar (gltfChild : Object3D) (s : State) : Result :=
  let model := add gltfChild shadow in
  updateMaterials
    (set_carParts (collectCarParts model (carParts s))
       (set_carModel (Some model) s)).

(** ** [setMeshColor]

    The helper works on a mesh whose [material] is one material or an array of
    them.  An entry may be missing ([None]); its [color] may be missing, and a
    colour object may lack a [set] method. *)
Module MeshColor.

Record Color : Type := mkColor { hex : Z; hasSet : bool }.

Record MaterialObj : Type := mkMaterialObj {
  color : option Color;
  needsUpdate : bool
}.

Inductive MaterialProp : Type :=
| Single (m : option MaterialObj)
| Multi (ms : list (option MaterialObj)).

Record Mesh : Type := mkMesh { material : MaterialProp }.

(** [Array.isArray(mesh.material) ? mesh.material : [mesh.material]]. *)
Definition mats (mesh : Mesh) : list (option MaterialObj) :=
  match material mesh with
  | Single m => [m]
  | Multi ms => ms
  end.

(** [m && m.color && m.color.set]. *)
Definition settable (m : option MaterialObj) : bool :=
  match m with
  | Some mo =>
      match color mo with
      | Some c => hasSet c
      | None => false
      end
  | None => false
  end.

(** The body of the [forEach] callback. *)
Definition tint (c : Z) (m : option MaterialObj) : option MaterialObj :=
  match m with
  | Some mo =>
      match color mo with
      | Some col =>
          if hasSet col
          then Some {| color := Some {| hex := c; hasSet := true |};
                       needsUpdate := true |}
          else m
      | None => m
      end
  | None => m
  end.

(** The callback changes the material objects in place.  [mats] is the
    mesh's own array, or a fresh one-element array around its one material:
    [storeMats] puts the entries, as the callback left them, back where the
    mesh refers to them. *)
Definition storeMats (mesh : Mesh) (ms : list (option MaterialObj)) : Mesh :=
  {| material :=
       match material mesh with
       | Single m => Single (default m (head ms))
       | Multi _ => Multi ms
       end |}.

(** [setMeshColor(mesh, color)]: the mesh afterwards; [None] is a null or
    undefined mesh. *)
Definition setMeshColor (mesh : option Mesh) (c : Z) : option Mesh :=
  match mesh with
  | None => None
  | Some me => Some (storeMats me (List.map (tint c) (mats me)))
  end.

End MeshColor.

(** ** What the specification asks of the part groups *)

(** No object is in two of the groups body, rims, glass. *)
Definition exclusiveGroups (p : CarParts) : Prop :=
  ∀ i : NodeRef,
    ¬ (i ∈ body p ∧ i ∈ rims p) ∧ ¬ (i ∈ body p ∧ i ∈ glass p)
    ∧ ¬ (i ∈ rims p ∧ i ∈ glass p).

(** ** Sample scenes *)

(** A model without any body naming: two meshes under an unnamed-part root. *)
Definition plainCar : Object3D :=
  mkObject3D "car" false
    [mkObject3D "chassis" true []; mkObject3D "windshield" true []].


(** A model with the names the part collection looks for. *)
Definition namedCar : Object3D :=
  mkObject3D "car" false
    [mkObject3D "body" true []; mkObject3D "hood" true [];
     mkObject3D "glass" true []; mkObject3D "rim_fl" true [];
     mkObject3D "trim" true []].

(** ** What the specification asks of a command that applies nothing *)

(** The selectors, the materials of the parts and the lights are as before. *)
Definition selectionUnchanged (s s' : State) : Prop :=
  bodyMatSelect s' = bodyMatSelect s ∧ rimMatSelect s' = rimMatSelect s
  ∧ glassMatSelect s' = glassMatSelect s
  ∧ lightingSelect s' = lightingSelect s
  ∧ material s' = material s ∧ visible s' = visible s.

(** The outcome NotUnderstood: the call returns, the help text is the one new
    line of the log and nothing was selected. *)
Definition notUnderstood (s : State) (r : Result) : Prop :=
  ∃ s', r = Returned s' ∧ chatLog s' = (chatLog s ++ [(Bot, NotUnderstood)])%list
        ∧ selectionUnchanged s s'.

(** The report of a command that came too early: the still-loading text is
    the one new line of the log and nothing was selected. *)
Definition stillLoading (s : State) (r : Result) : Prop :=
  ∃ s', r = Returned s' ∧ chatLog s' = (chatLog s ++ [(Bot, StillLoading)])%list
        ∧ selectionUnchanged s s'.

(** ** Sample states *)

(** A page for main.js to run in: three material selectors without options,
    which main.js fills; a lighting selector that offers the sentinel none and
    the keys of the presets.  Lights are visible when three.js creates them. *)
Definition pageState : State :=
  {| carModel := None;
     carParts := emptyCarParts;
     materialsLib := None;
     bodyMatSelect := mkSelect [] (-1);
     rimMatSelect := mkSelect [] (-1);
     glassMatSelect := mkSelect [] (-1);
     lightingSelect :=
       mkSelect ["none"; "directional"; "ambient"; "night"; "dark"; "showroom"]
                0;
     material := ∅;
     visible := fun _ => true;
     chatLog := [] |}.

(** After [init] and before the sky box has loaded: lights set up, no
    materials yet. *)
Definition startState : State := initLights pageState.

(** After the sky box has loaded, while the car model is still on its way:
    materials and menus are there, the model and the part groups are not. *)
Definition loadingState : State :=
  finalState (initMaterialSelectionMenus (initMaterials startState)).

(** After the car model has loaded. *)
Definition readyState : State := finalState (initCar namedCar loadingState).

(** ** The send button

    [String.prototype.trim] strips white space and line terminators from both
    ends; on the code points U+0000..U+00FF these are TAB, LF, VT, FF, CR,
    the space and the no-break space. *)






(** ** What the specification asks of the lights *)

(** Lights of at most one preset are visible. *)
Definition atMostOnePreset (vis : Light -> bool) : Prop :=
  ∀ p lp q lq (l l' : Light),
    (p, lp) ∈ allLights → (q, lq) ∈ allLights → l ∈ lp → l' ∈ lq →
    vis l = true → vis l' = true → p = q.

(** ** More sample scenes *)

(** Two objects share the name trim: a group first, a mesh after it. *)
Definition shadowedTrimCar : Object3D :=
  mkObject3D "car" false
    [mkObject3D "body" true [];
     mkObject3D "trim" false [mkObject3D "trim" true []];
     mkObject3D "door_left" false []].

(** * Properties *)

(** ** Lists of parts *)

Section PartLists.

Implicit Types (arr ms : list NodeRef) (x y : NodeRef).

Lemma elem_of_uniquePush arr x y :
  x ∈ uniquePush arr (Some y) ↔ x ∈ arr ∨ x = y.
Proof.
  unfold uniquePush. case_bool_decide as Hy.
  - split; [by left | intros [?| ->]; done].
  - rewrite elem_of_app, list_elem_of_singleton. done.
Qed.

Lemma NoDup_uniquePush arr item : NoDup arr → NoDup (uniquePush arr item).
Proof.
  intros Hnd. destruct item as [y|]; unfold uniquePush; [|done].
  case_bool_decide as Hy; [done|].
  apply NoDup_app. split_and!; [done | | apply NoDup_singleton].
  intros z Hz ->%list_elem_of_singleton. done.
Qed.

Lemma elem_of_pushAll ms arr x : x ∈ pushAll arr ms ↔ x ∈ arr ∨ x ∈ ms.
Proof.
  unfold pushAll. revert arr.
  induction ms as [|m ms IH]; intros arr; cbn [fold_left].
  - rewrite elem_of_nil. tauto.
  - rewrite IH, elem_of_uniquePush, elem_of_cons. tauto.
Qed.



Lemma elem_of_pushIfMesh arr m x :
  x ∈ pushIfMesh arr m ↔
  x ∈ arr ∨ ∃ o, m = Some (x, o) ∧ isMesh o = true.
Proof.
  destruct m as [[i o]|]; simpl.
  - destruct (isMesh o) eqn:Ho.
    + rewrite elem_of_uniquePush. split.
      * intros [?| ->]; [by left | right; eauto].
      * intros [?|(o' & [= -> ->] & _)]; [by left | by right].
    + split; [by left|]. intros [?|(o' & [= -> ->] & ?)]; [done | congruence].
  - split; [by left|]. intros [?|(o' & ? & _)]; done.
Qed.

End PartLists.

(** ** The scene graph and its lookups *)

Section Scene.

Variable root : Object3D.

Lemma elem_of_nodes i o : (i, o) ∈ nodes root ↔ traverse root !! i = Some o.
Proof.
  unfold nodes. rewrite elem_of_lookup_imap. split.
  - intros (j & o' & [= -> ->] & H). done.
  - intros H. eauto.
Qed.

Lemma getObjectByName_Some n i o :
  getObjectByName root n = Some (i, o) →
  traverse root !! i = Some o ∧ name o = n.
Proof.
  unfold getObjectByName. intros H.
  apply find_some in H as [Hin Hn]. simpl in Hn.
  apply String.eqb_eq in Hn.
  split; [|done]. by apply elem_of_nodes, list_elem_of_In.
Qed.

Lemma elem_of_collectMeshesByNamePattern regex i :
  i ∈ collectMeshesByNamePattern root regex ↔
  ∃ o, traverse root !! i = Some o ∧ isMesh o = true
       ∧ regex (toLowerCase (name o)) = true.
Proof.
  unfold collectMeshesByNamePattern. rewrite list_elem_of_fmap. split.
  - intros ([j o] & -> & Hin). simpl.
    apply list_elem_of_In, filter_In in Hin as [Hin Hp]. simpl in Hp.
    apply andb_true_iff in Hp as [??].
    exists o. split_and!; [|done..]. by apply elem_of_nodes, list_elem_of_In.
  - intros (o & Hi & Hm & Hr). exists (i, o). split; [done|].
    apply list_elem_of_In, filter_In. split.
    + by apply list_elem_of_In, elem_of_nodes.
    + simpl. by rewrite Hm, Hr.
Qed.

Lemma elem_of_fold_fallbackVisit (l : list (NodeRef * Object3D)) arr x :
  x ∈ fold_left fallbackVisit l arr ↔
  x ∈ arr ∨ ∃ o, (x, o) ∈ l ∧ isMesh o = true
                 ∧ exclusionRegex (toLowerCase (name o)) = false.
Proof.
  revert arr. induction l as [|[j o] l IH]; intros arr; simpl.
  - split; [by left|]. intros [?|(o & Hin & _)]; [done|].
    by apply elem_of_nil in Hin.
  - rewrite IH. unfold fallbackVisit; simpl.
    destruct (isMesh o) eqn:Hm; simpl;
      [destruct (exclusionRegex (toLowerCase (name o))) eqn:He; simpl|].
    + split; [intros [?|(o' & ? & ?)]; [by left | right; exists o'] |].
      * split; [by right | done].
      * intros [?|(o' & Hin & Hm' & He')]; [by left|].
        apply elem_of_cons in Hin as [[= -> ->]|Hin]; [congruence|].
        right. eauto.
    + rewrite elem_of_uniquePush. split.
      * intros [[?| ->]|(o' & ? & ?)]; [by left | right; exists o | right; exists o'].
        -- split; [by left | done].
        -- split; [by right | done].
      * intros [?|(o' & Hin & Hm' & He')]; [by left; left|].
        apply elem_of_cons in Hin as [[= -> ->]|Hin]; [by left; right|].
        right. eauto.
    + split; [intros [?|(o' & ? & ?)]; [by left | right; exists o'] |].
      * split; [by right | done].
      * intros [?|(o' & Hin & Hm' & He')]; [by left|].
        apply elem_of_cons in Hin as [[= -> ->]|Hin]; [congruence|].
        right. eauto.
Qed.


(** What the body steps 1 and 2 collect, starting from an empty group: the
    meshes whose lower-cased name the body pattern matches. *)
Lemma elem_of_body_rules i :
  i ∈ collectPatternBody root (collectExplicitBody root []) ↔
  ∃ o, traverse root !! i = Some o ∧ isMesh o = true
       ∧ bodyRegex (toLowerCase (name o)) = true.
Proof.
  unfold collectPatternBody, collectExplicitBody.
  rewrite elem_of_pushAll, elem_of_pushIfMesh,
    elem_of_collectMeshesByNamePattern.
  split; [|by right].
  intros [[Hnil|(o & Hget & Hm)]|?]; [by apply elem_of_nil in Hnil | | done].
  apply getObjectByName_Some in Hget as [Hi Hn].
  exists o. split_and!; [done..|]. by rewrite Hn.
Qed.

Lemma elem_of_collectRims i :
  i ∈ collectRims root [] →
  ∃ o, traverse root !! i = Some o ∧ isMesh o = true ∧ name o ∈ rimNames.
Proof.
  unfold collectRims.
  assert (∀ names arr,
    i ∈ fold_left (λ acc n, pushIfMesh acc (getObjectByName root n)) names arr →
    i ∈ arr ∨ ∃ o, traverse root !! i = Some o ∧ isMesh o = true
                   ∧ name o ∈ names) as Hfold.
  { induction names as [|n names IH]; intros arr; simpl; [by left|].
    intros [Hin|(o & ? & ? & ?)]%IH.
    - apply elem_of_pushIfMesh in Hin as [?|(o & Hget & Hm)]; [by left|].
      apply getObjectByName_Some in Hget as [Hi Hn].
      right. exists o. split_and!; [done..|]. rewrite <- Hn. by left.
    - right. exists o. split_and!; [done..|]. by right. }
  intros [Hnil|?]%Hfold; [by apply elem_of_nil in Hnil | done].
Qed.


Lemma elem_of_collectGlass i :
  i ∈ collectGlass root [] →
  ∃ o, traverse root !! i = Some o ∧ isMesh o = true
       ∧ (glassRegex (toLowerCase (name o)) = true ∨ name o = "glass").
Proof.
  unfold collectGlass.
  rewrite elem_of_pushIfMesh, elem_of_pushAll,
    elem_of_collectMeshesByNamePattern.
  intros [[Hnil|(o & ? & ? & ?)]|(o & Hget & Hm)].
  - by apply elem_of_nil in Hnil.
  - exists o. split_and!; [done..|]. by left.
  - apply getObjectByName_Some in Hget as [Hi Hn].
    exists o. split_and!; [done..|]. by right.
Qed.




End Scene.

(** ** The part collection of [initCar] *)

Lemma body_rules_nonempty_no_fallback root :
  collectPatternBody root (collectExplicitBody root []) ≠ [] →
  collectBody root [] = collectPatternBody root (collectExplicitBody root []).
Proof.
  unfold collectBody, collectFallbackBody. intros Hne.
  destruct (collectPatternBody root (collectExplicitBody root [])); done.
Qed.




(** C5: when the explicit-name rule and the pattern rule find nothing, the
    body group is exactly the meshes whose lower-cased name holds no exclusion
    keyword; when they find something, the body group holds only meshes the
    body pattern matches, so nothing came from the fallback. *)
Theorem fallback_body_iff_no_rule_matches (root : Object3D) :
  let p := collectCarParts root emptyCarParts in
  (collectExplicitBody root [] = [] →
   collectMeshesByNamePattern root bodyRegex = [] →
   ∀ i : NodeRef,
     i ∈ body p ↔
     ∃ o, traverse root !! i = Some o ∧ isMesh o = true
          ∧ existsb (includes (toLowerCase (name o))) exclusionKeywords = false)
  ∧ (collectExplicitBody root [] ≠ []
     ∨ collectMeshesByNamePattern root bodyRegex ≠ [] →
     ∀ i : NodeRef,
       i ∈ body p →
       ∃ o, traverse root !! i = Some o ∧ isMesh o = true
            ∧ bodyRegex (toLowerCase (name o)) = true).
Proof.
  simpl. split.
  - intros H1 H2 i. unfold collectBody, collectPatternBody.
    rewrite H1, H2. unfold collectFallbackBody. simpl.
    rewrite elem_of_fold_fallbackVisit. split.
    + intros [Hnil|(o & ?%elem_of_nodes & ? & ?)];
        [by apply elem_of_nil in Hnil | eauto].
    + intros (o & ?%elem_of_nodes & ? & ?). right. eauto.
  - intros Hne i. rewrite body_rules_nonempty_no_fallback.
    + by intros ?%elem_of_body_rules.
    + intros Hnil.
      assert (∀ x, x ∉ collectPatternBody root (collectExplicitBody root []))
        as Hnone by (intros x; rewrite Hnil; apply not_elem_of_nil).
      unfold collectPatternBody in Hnone.
      destruct Hne as [Hne|Hne]; apply Hne, elem_of_nil_inv; intros x Hx;
        apply (Hnone x), elem_of_pushAll; [by left | by right].
Qed.

Lemma fallback_body_iff_no_rule_matches_witness :
  2 ∈ body (collectCarParts plainCar emptyCarParts)
  ∧ ∃ o, traverse namedCar !! 1 = Some o ∧ isMesh o = true
         ∧ bodyRegex (toLowerCase (name o)) = true.
Proof.
  split.
  - apply (proj1 (fallback_body_iff_no_rule_matches plainCar));
      [reflexivity | reflexivity |].
    exists (mkObject3D "windshield" true []). split_and!; reflexivity.
  - apply (proj2 (fallback_body_iff_no_rule_matches namedCar)).
    + left. vm_compute. discriminate.
    + compute_done.
Defined.




(** ** Text *)



Lemma firstNamed_None {A : Type} (nameOf : A → string) text (entries : list A) :
  Forall (λ e, includes text (toLowerCase (nameOf e)) = false) entries →
  firstNamed nameOf text entries = None.
Proof.
  unfold firstNamed. induction 1 as [|e l He _ IH]; simpl; [done|].
  by rewrite He.
Qed.

(** ** The command handler *)

Section CommandProperties.

Variable openDoors : State → State.

Lemma selectionUnchanged_addMessage sender text s :
  selectionUnchanged s (addMessage sender text s).
Proof. by repeat split. Qed.

Lemma notUnderstood_help s :
  notUnderstood s (Returned (addMessage Bot NotUnderstood s)).
Proof.
  exists (addMessage Bot NotUnderstood s).
  split_and!; [done..|apply selectionUnchanged_addMessage].
Qed.


(** A body, rim or glass keyword whose category offers no material named in
    the text selects nothing and hands over to the next intent. *)
Lemma bodyIntent_no_material text s lib :
  materialsLib s = Some lib →
  Forall (λ mat, includes text (toLowerCase (Material.name mat)) = false)
         (Lib.main lib) →
  bodyIntent text s = glassIntent text s.
Proof.
  intros Hlib Hnone%firstNamed_None. unfold bodyIntent, rimIntent.
  rewrite Hlib, Hnone. by repeat destruct (_ || _).
Qed.

Lemma glassIntent_no_material text s :
  includes text "glass" = false
  ∨ (∃ lib, materialsLib s = Some lib
            ∧ Forall (λ mat, includes text (toLowerCase (Material.name mat))
                             = false) (Lib.glass lib)) →
  glassIntent text s = lightingIntent text s.
Proof.
  unfold glassIntent. intros [->|(lib & -> & ->%firstNamed_None)]; [done|].
  by destruct (includes _ _).
Qed.

Lemma lightingIntent_no_preset text s :
  includes text "light" || includes text "lighting" = false
  ∨ Forall (λ option, includes text (toLowerCase option) = false) allLights.*1 →
  lightingIntent text s = Returned (addMessage Bot NotUnderstood s).
Proof.
  unfold lightingIntent. intros [->|H%(firstNamed_None id)]; [done|].
  rewrite H. by destruct (_ || _).
Qed.


(** C10: for null, undefined and the empty string the handler returns with the
    help text as the one new line of the log; selectors, part materials and
    lights are as before. *)
Theorem empty_input_not_understood (s : State) :
  handleCommand openDoors RawNull s = Returned (addMessage Bot NotUnderstood s)
  ∧ handleCommand openDoors RawUndefined s
    = Returned (addMessage Bot NotUnderstood s)
  ∧ handleCommand openDoors (RawString "") s
    = Returned (addMessage Bot NotUnderstood s)
  ∧ orEmpty RawNull = "" ∧ orEmpty RawUndefined = ""
  ∧ selectionUnchanged s (addMessage Bot NotUnderstood s)
  ∧ chatLog (addMessage Bot NotUnderstood s)
    = (chatLog s ++ [(Bot, NotUnderstood)])%list.
Proof. split_and!; try reflexivity. apply selectionUnchanged_addMessage. Qed.

(** C1, as the code has it: when the lower-cased text holds body or paint, no
    name of a main material, and not both open and door, the body intent
    selects nothing and the later intents are still tried.  The outcome is
    NotUnderstood, with nothing selected, when the glass intent and the
    lighting intent do not apply either; a glass material named next to the
    word glass is selected; failing that, a lighting preset named next to the
    word light is activated. *)
Theorem body_keyword_without_material (str : string) (s : State) (lib : Lib.t) :
  let text := toLowerCase str in
  materialsLib s = Some lib →
  includes text "open" && includes text "door" = false →
  includes text "body" || includes text "paint" = true →
  Forall (λ mat, includes text (toLowerCase (Material.name mat)) = false)
         (Lib.main lib) →
  let noGlass :=
    includes text "glass" = false
    ∨ Forall (λ mat, includes text (toLowerCase (Material.name mat)) = false)
             (Lib.glass lib) in
  let noLighting :=
    includes text "light" || includes text "lighting" = false
    ∨ Forall (λ option, includes text (toLowerCase option) = false)
             allLights.*1 in
  (noGlass → noLighting →
   handleCommand openDoors (RawString str) s
   = Returned (addMessage Bot NotUnderstood s))
  ∧ (∀ mat,
       includes text "glass" = true →
       firstNamed Material.name text (Lib.glass lib) = Some mat →
       handleCommand openDoors (RawString str) s
       = (s1 <- updateMaterials
                  (set_glassMatSelect
                     (setValue (glassMatSelect s) (Material.name mat)) s) ;;
          Returned (addMessage Bot (GlassColorSet (Material.name mat)) s1)))
  ∧ (∀ option,
       noGlass →
       includes text "light" || includes text "lighting" = true →
       firstNamed id text allLights.*1 = Some option →
       handleCommand openDoors (RawString str) s
       = (s1 <- updateLighting
                  (set_lightingSelect (setValue (lightingSelect s) option) s) ;;
          Returned (addMessage Bot (LightingSet option) s1))).
Proof.
  intros text Hlib Hdoor Hkey Hmain noGlass noLighting.
  assert (handleCommand openDoors (RawString str) s = glassIntent text s)
    as ->.
  { unfold handleCommand. simpl. fold text. rewrite Hdoor.
    by apply bodyIntent_no_material with lib. }
  split_and!.
  - intros Hg Hl.
    rewrite glassIntent_no_material, lightingIntent_no_preset; [done..|].
    destruct Hg as [?|?]; [by left | right; eauto].
  - intros mat Hg Hmat. unfold glassIntent. by rewrite Hg, Hlib, Hmat.
  - intros option Hg Hl Hopt.
    rewrite glassIntent_no_material
      by (destruct Hg as [?|?]; [by left | right; eauto]).
    unfold lightingIntent. by rewrite Hl, Hopt.
Qed.

End CommandProperties.


Lemma body_keyword_without_material_witness :
  handleCommand id (RawString "Paint it green") loadingState
  = Returned (addMessage Bot NotUnderstood loadingState).
Proof.
  eapply (proj1 (body_keyword_without_material id "Paint it green"
                   loadingState _ eq_refl eq_refl eq_refl _)).
  - left. reflexivity.
  - left. reflexivity.
  Unshelve. compute_done.
Defined.

(** C1 as stated fails: paint the glass smoked holds the body keyword paint
    and no main material, and the glass intent then selects smoked. *)
Lemma body_keyword_does_not_stop_glass :
  ¬ (∀ (str : string) (s : State) (lib : Lib.t),
       materialsLib s = Some lib →
       includes (toLowerCase str) "open" && includes (toLowerCase str) "door"
       = false →
       includes (toLowerCase str) "body" || includes (toLowerCase str) "paint"
       = true →
       Forall (λ mat, includes (toLowerCase str)
                               (toLowerCase (Material.name mat)) = false)
              (Lib.main lib) →
       notUnderstood s (handleCommand id (RawString str) s)).
Proof.
  intros H.
  destruct (H "paint the glass smoked" loadingState _ eq_refl eq_refl eq_refl)
    as (s' & Hret & _ & _ & _ & Hglass & _).
  - compute_done.
  - apply (f_equal (λ r, selectedIndex (glassMatSelect (finalState r))))
      in Hret.
    cbn [finalState] in Hret. rewrite Hglass in Hret.
    vm_compute in Hret. discriminate.
Qed.

(** C2, where the code departs from it: [ensureCarReady] would report that the
    car is still loading, but [handleCommand] never calls it.  With the model
    still loading, make body red selects red and reports it; before the
    materials exist the same command throws. *)
Theorem command_while_loading_is_applied :
  carModel loadingState = None
  ∧ body (carParts loadingState) = []
  ∧ ensureCarReady loadingState
    = (addMessage Bot StillLoading loadingState, false)
  ∧ handleCommand id (RawString "make body red") loadingState
    = Returned
        (addMessage Bot (BodyColorSet "red")
           (set_bodyMatSelect
              (mkSelect ["orange"; "blue"; "red"; "black"; "white"; "metallic"]
                        2)
              loadingState))
  ∧ ¬ stillLoading loadingState
        (handleCommand id (RawString "make body red") loadingState)
  ∧ handleCommand id (RawString "make body red") startState
    = Thrown TypeError startState.
Proof.
  split_and!; [vm_compute; reflexivity.. | | vm_compute; reflexivity].
  intros (s' & Hret & Hlog & _).
  apply (f_equal (λ r, chatLog (finalState r))) in Hret.
  cbn [finalState] in Hret. rewrite Hlog in Hret.
  vm_compute in Hret. discriminate.
Qed.

(** ** Lighting *)

Lemma setVisible_lookup b lights vis l :
  setVisible b lights vis l = if bool_decide (l ∈ lights) then b else vis l.
Proof.
  unfold setVisible. revert vis.
  induction lights as [|x lights IH]; intros vis; simpl; [done|].
  rewrite IH. case_bool_decide as Hin.
  - rewrite bool_decide_eq_true_2; [done | by right].
  - destruct (decide (l = x)) as [->|Hne].
    + rewrite bool_decide_eq_true_2; [done | by left].
    + rewrite bool_decide_eq_false_2; [done|].
      by intros [?|?]%elem_of_cons.
Qed.

Lemma every_light_in_a_preset l : l ∈ concat allLights.*2.
Proof. destruct l; compute_done. Qed.

Lemma assoc_Some_elem_of {A : Type} key (obj : list (string * A)) v :
  assoc key obj = Some v → (key, v) ∈ obj.
Proof.
  induction obj as [|[k v'] obj IH]; cbn [assoc]; [done|].
  destruct (String.eqb_spec k key) as [->|_].
  - intros [= ->]. by left.
  - intros ?%IH. by right.
Qed.

Lemma elem_of_assoc {A : Type} key (obj : list (string * A)) v :
  NoDup obj.*1 → (key, v) ∈ obj → assoc key obj = Some v.
Proof.
  induction obj as [|[k v'] obj IH]; cbn [assoc]; [by intros _ ?%elem_of_nil|].
  rewrite fmap_cons. intros [Hk Hnd]%NoDup_cons [[= -> ->]|Hin]%elem_of_cons.
  - by rewrite String.eqb_refl.
  - destruct (String.eqb_spec k key) as [->|_]; [|by apply IH].
    destruct Hk. apply list_elem_of_fmap. by exists (key, v).
Qed.

Lemma assoc_allLights mode lights :
  assoc mode allLights = Some lights ↔ (mode, lights) ∈ allLights.
Proof.
  split; [apply assoc_Some_elem_of | apply elem_of_assoc; compute_done].
Qed.

(** No light belongs to two presets. *)
Lemma presets_share_no_light p lp q lq l :
  (p, lp) ∈ allLights → (q, lq) ∈ allLights → l ∈ lp → l ∈ lq → p = q.
Proof.
  intros Hp Hq Hl Hl'.
  assert (Forall (λ P : string * list Light,
            Forall (λ Q : string * list Light,
                      P.1 = Q.1 ∨ Forall (λ x, x ∉ Q.2) P.2) allLights)
            allLights) as Hall by compute_done.
  rewrite Forall_forall in Hall. specialize (Hall _ Hp).
  rewrite Forall_forall in Hall. destruct (Hall _ Hq) as [?|Hno]; [done|].
  rewrite Forall_forall in Hno. by destruct (Hno l Hl).
Qed.

(** The visibility of a light once [updateLighting] is over, returned or
    thrown. *)
Lemma visible_updateLighting s l :
  visible (finalState (updateLighting s)) l
  = negb (String.eqb (value (lightingSelect s)) "none")
    && match assoc (value (lightingSelect s)) allLights with
       | Some lights => bool_decide (l ∈ lights)
       | None => false
       end.
Proof.
  pose proof (every_light_in_a_preset l) as Hall.
  unfold updateLighting, getProperty.
  destruct (String.eqb _ "none"); cbn [negb andb].
  - cbn [finalState visible set_visible].
    by rewrite setVisible_lookup, bool_decide_eq_true_2.
  - destruct (assoc _ allLights) as [lights|]; [|destruct (bool_decide _)];
      cbn [finalState visible set_visible];
      rewrite !setVisible_lookup, (bool_decide_eq_true_2 _ Hall);
      [by case_bool_decide | done..].
Qed.

(** C7: after [updateLighting] a light is visible exactly when the selected
    name is not none, is a preset and the light is one of that preset's; so
    lights of at most one preset are visible, and with none selected no light
    is. *)
Theorem updateLighting_one_preset (s : State) :
  let mode := value (lightingSelect s) in
  let s' := finalState (updateLighting s) in
  (∀ l : Light,
     visible s' l = true ↔
     mode ≠ "none" ∧ ∃ lights, (mode, lights) ∈ allLights ∧ l ∈ lights)
  ∧ (∀ p lp q lq (l l' : Light),
       (p, lp) ∈ allLights → (q, lq) ∈ allLights → l ∈ lp → l' ∈ lq →
       visible s' l = true → visible s' l' = true → p = q)
  ∧ (mode = "none" → ∀ l : Light, visible s' l = false).
Proof.
  intros mode s'.
  assert (∀ l : Light,
     visible s' l = true ↔
     mode ≠ "none" ∧ ∃ lights, (mode, lights) ∈ allLights ∧ l ∈ lights)
    as Hvis.
  { intros l. subst s'. rewrite visible_updateLighting. fold mode.
    rewrite andb_true_iff, negb_true_iff.
    destruct (String.eqb_spec mode "none") as [Hnone|Hmode].
    - split; intros [? _]; done.
    - destruct (assoc mode allLights) as [lights|] eqn:Hassoc.
      + rewrite bool_decide_eq_true. split.
        * intros [_ Hin]. split; [done|]. exists lights.
          split; [by apply assoc_allLights | done].
        * intros (_ & lights' & Hin'%assoc_allLights & Hl).
          rewrite Hassoc in Hin'. by injection Hin' as <-.
      + split; [by intros [_ ?]|].
        intros (_ & lights & Hin%assoc_allLights & _). congruence. }
  split_and!; [done | |].
  - intros p lp q lq l l' Hp Hq Hl Hl'.
    intros (_ & lights & Hm & Hin)%Hvis (_ & lights' & Hm' & Hin')%Hvis.
    transitivity mode.
    + exact (presets_share_no_light p lp mode lights l Hp Hm Hl Hin).
    + symmetry.
      exact (presets_share_no_light q lq mode lights' l' Hq Hm' Hl' Hin').
  - intros Hnone l. destruct (visible s' l) eqn:Hl; [|done].
    apply Hvis in Hl as [? _]. done.
Qed.

Lemma updateLighting_one_preset_witness :
  visible
    (finalState
       (updateLighting
          (set_lightingSelect (setValue (lightingSelect readyState) "ambient")
                              readyState)))
    ambient = true
  ∧ ∀ l : Light,
      visible
        (finalState
           (updateLighting
              (set_lightingSelect (setValue (lightingSelect readyState) "none")
                                  readyState)))
        l = false.
Proof.
  split.
  - apply (proj1 (updateLighting_one_preset
                    (set_lightingSelect
                       (setValue (lightingSelect readyState) "ambient")
                       readyState))).
    split; [discriminate|]. exists [ambient]. split; compute_done.
  - apply (proj2 (proj2 (updateLighting_one_preset
                    (set_lightingSelect
                       (setValue (lightingSelect readyState) "none")
                       readyState)))).
    reflexivity.
Defined.

(** ** Materials *)

Lemma lookup_assignMaterial mat arr (store : gmap NodeRef MaterialSlot) i :
  assignMaterial mat arr store !! i
  = if bool_decide (i ∈ arr) then Some mat else store !! i.
Proof.
  unfold assignMaterial. revert store.
  induction arr as [|x arr IH]; intros store; simpl; [done|].
  rewrite IH, lookup_insert. case_bool_decide as Hin.
  - rewrite bool_decide_eq_true_2; [done | by right].
  - destruct (decide (x = i)) as [->|Hne].
    + rewrite bool_decide_eq_true_2; [done | by left].
    + rewrite bool_decide_eq_false_2; [done|].
      intros [?|?]%elem_of_cons; congruence.
Qed.

(** Writing the same three materials to the same three groups a second time
    leaves the store as the first time left it. *)
Lemma assignMaterial_thrice_again b r g (bs rs gs : list NodeRef)
    (store : gmap NodeRef MaterialSlot) :
  let write st :=
    assignMaterial g gs (assignMaterial r rs (assignMaterial b bs st)) in
  write (write store) = write store.
Proof.
  intros write. apply map_eq. intros i. unfold write.
  rewrite !lookup_assignMaterial. by repeat case_bool_decide.
Qed.

(** C8: once the material library exists, [updateMaterials] returns, and
    running it again on the state it left returns that very state; when the
    groups share no object, every part then carries the material selected for
    its group. *)
Theorem updateMaterials_idempotent (s : State) (lib : Lib.t) :
  materialsLib s = Some lib →
  ∃ s1,
    updateMaterials s = Returned s1
    ∧ updateMaterials s1 = Returned s1
    ∧ (exclusiveGroups (carParts s) →
       (∀ i, i ∈ body (carParts s) →
             material s1 !! i
             = Some (mainAt (selectedIndex (bodyMatSelect s)) lib))
       ∧ (∀ i, i ∈ rims (carParts s) →
               material s1 !! i
               = Some (mainAt (selectedIndex (rimMatSelect s)) lib))
       ∧ (∀ i, i ∈ glass (carParts s) →
               material s1 !! i
               = Some (glassAt (selectedIndex (glassMatSelect s)) lib))).
Proof.
  intros Hlib. unfold updateMaterials. rewrite Hlib.
  eexists. split; [reflexivity|]. simpl. rewrite Hlib. split.
  - unfold set_material. simpl. f_equal. f_equal.
    apply assignMaterial_thrice_again.
  - intros Hex. split_and!; intros i Hin; rewrite !lookup_assignMaterial;
      destruct (Hex i) as (Hbr & Hbg & Hrg); repeat case_bool_decide; tauto.
Qed.

Lemma updateMaterials_idempotent_witness :
  updateMaterials (finalState (updateMaterials readyState))
  = Returned (finalState (updateMaterials readyState)).
Proof.
  destruct (updateMaterials_idempotent readyState
              (default (Lib.mk [] []) (materialsLib readyState)) eq_refl)
    as (s1 & H1 & H2 & _).
  rewrite H1. exact H2.
Defined.

(** ** [setMeshColor] *)

Lemma mats_storeMats_tint c me :
  MeshColor.mats
    (MeshColor.storeMats me (List.map (MeshColor.tint c) (MeshColor.mats me)))
  = MeshColor.tint c <$> MeshColor.mats me.
Proof. destruct me as [[m|ms]]; reflexivity. Qed.

Lemma tint_cases c m :
  (MeshColor.settable m = true →
   ∃ mo', MeshColor.tint c m = Some mo'
          ∧ MeshColor.color mo'
            = Some {| MeshColor.hex := c; MeshColor.hasSet := true |}
          ∧ MeshColor.needsUpdate mo' = true)
  ∧ (MeshColor.settable m = false → MeshColor.tint c m = m).
Proof.
  destruct m as [[[[h []]|] nu]|]; simpl; split; try done.
  intros _. eexists. by split_and!.
Qed.

(** C9: [setMeshColor] is defined on every mesh and colour.  A null mesh is
    left alone.  Otherwise one material is handled as an array of one, the
    mesh keeps its shape (one material, or an array of the same length); an
    entry with a settable colour gets the colour and is marked for update;
    any other entry is as before. *)
Theorem setMeshColor_tints_settable (c : Z) :
  MeshColor.setMeshColor None c = None
  ∧ ∀ me : MeshColor.Mesh,
      ∃ me',
        MeshColor.setMeshColor (Some me) c = Some me'
        ∧ (∀ m, MeshColor.material me = MeshColor.Single m →
                MeshColor.mats me = [m]
                ∧ ∃ m', MeshColor.material me' = MeshColor.Single m')
        ∧ (∀ ms, MeshColor.material me = MeshColor.Multi ms →
                 MeshColor.mats me = ms
                 ∧ ∃ ms', MeshColor.material me' = MeshColor.Multi ms')
        ∧ length (MeshColor.mats me') = length (MeshColor.mats me)
        ∧ ∀ (k : nat) (m : option MeshColor.MaterialObj),
            MeshColor.mats me !! k = Some m →
            (MeshColor.settable m = true →
             ∃ mo',
               MeshColor.mats me' !! k = Some (Some mo')
               ∧ MeshColor.color mo'
                 = Some {| MeshColor.hex := c; MeshColor.hasSet := true |}
               ∧ MeshColor.needsUpdate mo' = true)
            ∧ (MeshColor.settable m = false →
               MeshColor.mats me' !! k = Some m).
Proof.
  split; [reflexivity|]. intros me. eexists. split; [reflexivity|].
  rewrite mats_storeMats_tint. split_and!.
  - intros m Hm. unfold MeshColor.mats, MeshColor.storeMats. rewrite Hm.
    split; [done|]. eauto.
  - intros ms Hms. unfold MeshColor.mats, MeshColor.storeMats. rewrite Hms.
    split; [done|]. eauto.
  - apply length_fmap.
  - intros k m Hk. rewrite list_lookup_fmap, Hk. simpl.
    destruct (tint_cases c m) as [Hset Hskip]. split.
    + intros (mo' & -> & ? & ?)%Hset. eauto.
    + by intros ->%Hskip.
Qed.

Lemma setMeshColor_tints_settable_witness :
  MeshColor.setMeshColor
    (Some {| MeshColor.material :=
               MeshColor.Multi
                 [Some {| MeshColor.color :=
                            Some {| MeshColor.hex := 0x990000;
                                    MeshColor.hasSet := true |};
                          MeshColor.needsUpdate := false |};
                  Some {| MeshColor.color := None;
                          MeshColor.needsUpdate := false |};
                  None] |})
    0x001166
  = Some {| MeshColor.material :=
              MeshColor.Multi
                [Some {| MeshColor.color :=
                           Some {| MeshColor.hex := 0x001166;
                                   MeshColor.hasSet := true |};
                         MeshColor.needsUpdate := true |};
                 Some {| MeshColor.color := None;
                         MeshColor.needsUpdate := false |};
                 None] |}.
Proof.
  destruct (proj2 (setMeshColor_tints_settable 0x001166)
              {| MeshColor.material :=
                   MeshColor.Multi
                     [Some {| MeshColor.color :=
                                Some {| MeshColor.hex := 0x990000;
                                        MeshColor.hasSet := true |};
                              MeshColor.needsUpdate := false |};
                      Some {| MeshColor.color := None;
                              MeshColor.needsUpdate := false |};
                      None] |}) as (me' & Heq & _).
  rewrite Heq. injection Heq as <-. reflexivity.
Defined.

(** * Further properties *)

(** ** [uniquePush] and [collectMeshesByNamePattern] *)

Lemma length_uniquePush (arr : list NodeRef) (item : option NodeRef) :
  (length (uniquePush arr item) ≤ S (length arr))%nat.
Proof.
  destruct item as [x|]; unfold uniquePush; [|lia].
  case_bool_decide; [lia|]. rewrite length_app. simpl. lia.
Qed.



Lemma filter_positions_sorted (f : NodeRef * Object3D → bool)
    (l : list Object3D) (k : nat) :
  StronglySorted lt (List.filter f (imap (λ i o, (k + i, o)) l)).*1
  ∧ Forall (λ i, (k ≤ i)%nat) (List.filter f (imap (λ i o, (k + i, o)) l)).*1.
Proof.
  revert k. induction l as [|o l IH]; intros k.
  - split; constructor.
  - rewrite imap_cons.
    rewrite (imap_ext _ (λ i o, (S k + i, o)))
      by (intros; simpl; f_equal; lia).
    destruct (IH (S k)) as [Hs Hge].
    assert (Forall (λ i, (k < i)%nat)
              (List.filter f (imap (λ i o, (S k + i, o)) l)).*1) as Hlt
      by (eapply Forall_impl; [exact Hge | intros; simpl in *; lia]).
    cbn [List.filter]. destruct (f _); [rewrite fmap_cons; simpl|].
    + split.
      * constructor; [done|]. by rewrite Nat.add_0_r.
      * constructor; [lia|]. eapply Forall_impl; [exact Hlt|].
        intros; simpl in *; lia.
    + split; [done|]. eapply Forall_impl; [exact Hlt|].
      intros; simpl in *; lia.
Qed.

Lemma StronglySorted_lt_NoDup (l : list nat) : StronglySorted lt l → NoDup l.
Proof.
  induction 1 as [|i l _ IH Hall]; constructor; [|done].
  intros Hin. rewrite Forall_forall in Hall. specialize (Hall _ Hin). lia.
Qed.

Lemma collectMeshesByNamePattern_sorted root regex :
  StronglySorted lt (collectMeshesByNamePattern root regex).
Proof. apply (filter_positions_sorted _ (traverse root) 0). Qed.

Lemma NoDup_collectMeshesByNamePattern root regex :
  NoDup (collectMeshesByNamePattern root regex).
Proof. apply StronglySorted_lt_NoDup, collectMeshesByNamePattern_sorted. Qed.


(** ** The part groups, exactly *)

Lemma filter_true_id {A : Type} (l : list A) : List.filter (λ _, true) l = l.
Proof. induction l as [|x l IH]; simpl; by rewrite ?IH. Qed.

Lemma NoDup_nodes_fst root : NoDup (nodes root).*1.
Proof.
  apply StronglySorted_lt_NoDup.
  pose proof (filter_positions_sorted (λ _, true) (traverse root) 0) as [H _].
  by rewrite filter_true_id in H.
Qed.

Lemma filter_not_elem_of_snoc (ms arr : list NodeRef) m :
  m ∉ ms →
  filter (λ x, x ∉ (arr ++ [m])%list) ms = filter (λ x, x ∉ arr) ms.
Proof.
  induction ms as [|y ms IH]; [done|].
  intros [Hy Hm]%not_elem_of_cons.
  destruct (decide (y ∈ arr)) as [Hin|Hin].
  - rewrite !filter_cons_False; [by apply IH | by intros ? |].
    intros H. apply H, elem_of_app. by left.
  - rewrite !filter_cons_True; [by rewrite IH | done |].
    intros [?|?%list_elem_of_singleton]%elem_of_app; congruence.
Qed.

(** Pushing a list without repeats: what is new is appended, in order. *)
Lemma pushAll_fresh (ms arr : list NodeRef) :
  NoDup ms → pushAll arr ms = (arr ++ filter (λ m, m ∉ arr) ms)%list.
Proof.
  unfold pushAll. intros Hnd. revert arr.
  induction Hnd as [|m ms Hm _ IH]; intros arr; cbn [fold_left].
  - by rewrite app_nil_r.
  - rewrite IH. unfold uniquePush. case_bool_decide as Hin.
    + by rewrite filter_cons_False by (intros ?; done).
    + rewrite filter_cons_True by done. rewrite <- app_assoc. simpl.
      by rewrite filter_not_elem_of_snoc.
Qed.

Lemma pushAll_nil (ms : list NodeRef) : NoDup ms → pushAll [] ms = ms.
Proof.
  intros Hnd. rewrite pushAll_fresh by done. simpl.
  induction ms as [|m ms IH]; [done|].
  apply NoDup_cons in Hnd as [_ Hnd].
  rewrite filter_cons_True by apply not_elem_of_nil. by rewrite IH.
Qed.

Lemma fold_fallbackVisit_fresh (l : list (NodeRef * Object3D)) arr :
  NoDup (arr ++ l.*1)%list →
  fold_left fallbackVisit l arr
  = (arr ++ (List.filter
               (λ p, isMesh p.2
                     && negb (exclusionRegex (toLowerCase (name p.2)))) l).*1)%list.
Proof.
  revert arr. induction l as [|[j o] l IH]; intros arr Hnd; simpl.
  - by rewrite app_nil_r.
  - rewrite fmap_cons in Hnd. simpl in Hnd.
    assert (j ∉ arr) as Hj.
    { apply NoDup_app in Hnd as (_ & Hdis & _). intros Hin.
      apply (Hdis j Hin). by left. }
    assert (NoDup (arr ++ l.*1)%list) as Hnd'.
    { apply NoDup_app in Hnd as (Ha & Hdis & [_ Hl]%NoDup_cons).
      apply NoDup_app. split_and!; [done | | done].
      intros x Hx Hx'. apply (Hdis x Hx). by right. }
    unfold fallbackVisit; simpl.
    destruct (isMesh o); simpl; [|by apply IH].
    destruct (exclusionRegex _); simpl; [by apply IH|].
    unfold uniquePush. rewrite bool_decide_eq_false_2 by done.
    rewrite IH; [by rewrite <- app_assoc|].
    by rewrite <- app_assoc.
Qed.

(** X3: the glass group is exactly the meshes the glass pattern matches, in
    traversal order; the look-up of the name glass after the pattern adds
    nothing. *)
Theorem glass_group_is_pattern_matches (root : Object3D) :
  glass (collectCarParts root emptyCarParts)
  = collectMeshesByNamePattern root glassRegex.
Proof.
  simpl. unfold collectGlass.
  rewrite pushAll_nil by apply NoDup_collectMeshesByNamePattern.
  destruct (getObjectByName root "glass") as [[i o]|] eqn:Hget; simpl; [|done].
  destruct (isMesh o) eqn:Hm; [|done].
  apply getObjectByName_Some in Hget as [Hi Hn].
  unfold uniquePush. rewrite bool_decide_eq_true_2; [done|].
  apply elem_of_collectMeshesByNamePattern.
  exists o. split_and!; [done..|]. by rewrite Hn.
Qed.

(** X4: when some mesh matches the body pattern, the body group is the first
    object named body, if that is a mesh, followed by the other pattern
    matches in traversal order; when none does, it is the meshes without an
    exclusion keyword, in traversal order. *)
Theorem body_group_contents (root : Object3D) :
  let p := collectCarParts root emptyCarParts in
  let matches := collectMeshesByNamePattern root bodyRegex in
  (matches ≠ [] →
   body p = match getObjectByName root "body" with
            | Some (i, o) =>
                if isMesh o then i :: filter (λ m, m ≠ i) matches else matches
            | None => matches
            end)
  ∧ (matches = [] →
     body p = (List.filter
                 (λ q, isMesh q.2
                       && negb (exclusionRegex (toLowerCase (name q.2))))
                 (nodes root)).*1).
Proof.
  intros p matches.
  pose proof (NoDup_collectMeshesByNamePattern root bodyRegex) as Hnd.
  assert (collectPatternBody root (collectExplicitBody root [])
          = match getObjectByName root "body" with
            | Some (i, o) =>
                if isMesh o then i :: filter (λ m, m ≠ i) matches else matches
            | None => matches
            end) as Hsteps.
  { unfold collectPatternBody, collectExplicitBody, pushIfMesh.
    destruct (getObjectByName root "body") as [[i o]|];
      [destruct (isMesh o)|]; [|by apply pushAll_nil..].
    rewrite pushAll_fresh by done. cbn [app]. f_equal.
    apply list_filter_iff. intros x.
    split; [intros H ->; apply H; by left|].
    by intros H ?%list_elem_of_singleton. }
  assert (collectPatternBody root (collectExplicitBody root []) = []
          ↔ matches = []) as Hnil.
  { split; intros H.
    - apply elem_of_nil_inv. intros x Hx.
      assert (x ∈ collectPatternBody root (collectExplicitBody root []))
        as Hin by (apply elem_of_body_rules;
                   by apply elem_of_collectMeshesByNamePattern).
      rewrite H in Hin. by apply elem_of_nil in Hin.
    - apply elem_of_nil_inv. intros x Hx%elem_of_body_rules.
      apply elem_of_collectMeshesByNamePattern in Hx. fold matches in Hx.
      rewrite H in Hx. by apply elem_of_nil in Hx. }
  split; intros Hm.
  - subst p. simpl. rewrite body_rules_nonempty_no_fallback; [done|].
    by rewrite Hnil.
  - subst p. simpl. unfold collectBody.
    rewrite (proj2 Hnil Hm). unfold collectFallbackBody. simpl.
    apply (fold_fallbackVisit_fresh (nodes root) []). simpl.
    apply NoDup_nodes_fst.
Qed.

Lemma body_group_contents_witness :
  body (collectCarParts namedCar emptyCarParts) = [1]
  ∧ body (collectCarParts plainCar emptyCarParts) = [1; 2].
Proof.
  split.
  - rewrite (proj1 (body_group_contents namedCar)); [reflexivity|].
    vm_compute. discriminate.
  - rewrite (proj2 (body_group_contents plainCar)); reflexivity.
Defined.

(** ** Look-ups by name: rims and doors *)

Lemma find_nodes_list_find (n : string) (l : list Object3D) (k : nat) :
  List.find (λ p : NodeRef * Object3D, String.eqb (name p.2) n)
            (imap (λ i o, (k + i, o)) l)
  = prod_map (λ i, k + i) id <$> list_find (λ o, name o = n) l.
Proof.
  revert k. induction l as [|o l IH]; intros k; [done|].
  rewrite imap_cons. cbn [List.find list_find snd].
  destruct (String.eqb_spec (name o) n) as [Hn|Hn].
  - rewrite decide_True by done. simpl. by rewrite Nat.add_0_r.
  - rewrite decide_False by done.
    rewrite (imap_ext _ (λ i o, (S k + i, o)))
      by (intros; simpl; f_equal; lia).
    rewrite IH. destruct (list_find _ l) as [[j o']|]; simpl; [|done].
    do 2 f_equal. lia.
Qed.

(** [getObjectByName] finds the first object with the name, mesh or not. *)
Lemma getObjectByName_first root n i o :
  getObjectByName root n = Some (i, o) ↔
  traverse root !! i = Some o ∧ name o = n
  ∧ ∀ j o', traverse root !! j = Some o' → j < i → name o' ≠ n.
Proof.
  unfold getObjectByName, nodes.
  pose proof (find_nodes_list_find n (traverse root) 0) as Hfind.
  cbn [Nat.add] in Hfind. rewrite Hfind. clear Hfind.
  rewrite <- (list_find_Some (λ o, name o = n)).
  destruct (list_find _ (traverse root)) as [[j o']|]; simpl; [|done].
  split; by intros [= -> ->].
Qed.

Lemma elem_of_fold_pushIfMesh root (names : list string) arr i :
  i ∈ fold_left (λ acc n, pushIfMesh acc (getObjectByName root n)) names arr ↔
  i ∈ arr ∨ ∃ n o, n ∈ names ∧ getObjectByName root n = Some (i, o)
                   ∧ isMesh o = true.
Proof.
  revert arr. induction names as [|n names IH]; intros arr; simpl.
  - split; [by left|]. intros [?|(n & o & Hn & _)]; [done|].
    by apply elem_of_nil in Hn.
  - rewrite IH, elem_of_pushIfMesh. split.
    + intros [[?|(o & ? & ?)]|(n' & o & ? & ? & ?)].
      * by left.
      * right. exists n, o. split_and!; [by left | done..].
      * right. exists n', o. split_and!; [by right | done..].
    + intros [?|(n' & o & [->|?]%elem_of_cons & ? & ?)].
      * by left; left.
      * left; right. eauto.
      * right. eauto.
Qed.

Lemma length_fold_pushIfMesh root (names : list string) arr :
  (length (fold_left (λ acc n, pushIfMesh acc (getObjectByName root n))
                     names arr)
   ≤ length arr + length names)%nat.
Proof.
  revert arr. induction names as [|n names IH]; intros arr; simpl; [lia|].
  etransitivity; [apply IH|].
  assert (length (pushIfMesh arr (getObjectByName root n)) ≤ S (length arr))%nat;
    [|lia].
  unfold pushIfMesh. destruct (getObjectByName root n) as [[i o]|]; [|lia].
  destruct (isMesh o); [|lia].
  apply length_uniquePush.
Qed.

(** X5: the rims group holds, for each of the five rim names, the first
    object of the model with that name, provided it is a mesh; a mesh that
    comes after another object of the same name is never a rim.  So there are
    at most five rims. *)
Theorem rims_are_first_of_their_name (root : Object3D) :
  let p := collectCarParts root emptyCarParts in
  (∀ i : NodeRef,
     i ∈ rims p ↔
     ∃ o, traverse root !! i = Some o ∧ isMesh o = true
          ∧ name o ∈ rimNames
          ∧ ∀ j o', traverse root !! j = Some o' → j < i → name o' ≠ name o)
  ∧ (length (rims p) ≤ 5)%nat.
Proof.
  simpl. split.
  - intros i. unfold collectRims. rewrite elem_of_fold_pushIfMesh. split.
    + intros [Hnil|(n & o & Hn & (Hi & <- & Hfirst)%getObjectByName_first & Hm)];
        [by apply elem_of_nil in Hnil|].
      exists o. by split_and!.
    + intros (o & Hi & Hm & Hn & Hfirst). right.
      exists (name o), o. split_and!; [done | | done].
      by apply getObjectByName_first.
  - apply (length_fold_pushIfMesh root rimNames []).
Qed.

Lemma rims_are_first_of_their_name_witness :
  rims (collectCarParts shadowedTrimCar emptyCarParts) = []
  ∧ 3 ∉ rims (collectCarParts shadowedTrimCar emptyCarParts).
Proof.
  split; [reflexivity|].
  rewrite (proj1 (rims_are_first_of_their_name shadowedTrimCar) 3).
  intros (o & Hi & _ & _ & Hfirst). injection Hi as <-.
  apply (Hfirst 2 (mkObject3D "trim" false [mkObject3D "trim" true []]));
    [reflexivity | lia | reflexivity].
Defined.

(** X6: the doors group holds the first object named door_left and the first
    named door_right, whether meshes or not; without such objects it is
    empty.  It never holds more than two objects. *)
Theorem doors_are_first_of_their_name (root : Object3D) :
  ∃ ds,
    doors (collectCarParts root emptyCarParts) = Some ds
    ∧ NoDup ds ∧ (length ds ≤ 2)%nat
    ∧ ∀ i : NodeRef,
        i ∈ ds ↔
        ∃ o, traverse root !! i = Some o
             ∧ (name o = "door_left" ∨ name o = "door_right")
             ∧ ∀ j o', traverse root !! j = Some o' → j < i →
                       name o' ≠ name o.
Proof.
  eexists. split; [reflexivity|]. unfold collectDoors.
  set (left := getObjectByName root "door_left").
  set (right := getObjectByName root "door_right").
  split_and!.
  - apply NoDup_uniquePush, NoDup_uniquePush, NoDup_nil_2.
  - pose proof (length_uniquePush [] (fst <$> left)) as H1.
    pose proof (length_uniquePush (uniquePush [] (fst <$> left))
                                  (fst <$> right)) as H2.
    simpl in H1. lia.
  - intros i.
    assert (∀ arr (m : option (NodeRef * Object3D)),
              i ∈ uniquePush arr (fst <$> m) ↔ i ∈ arr ∨ ∃ o, m = Some (i, o))
      as Hpush.
    { intros arr [[j o]|]; simpl.
      - rewrite elem_of_uniquePush. split.
        + intros [?| ->]; [by left | right; eauto].
        + intros [?|(o' & [= -> ->])]; [by left | by right].
      - split; [by left|]. by intros [?|(o' & ?)]. }
    rewrite !Hpush. subst left right. split.
    + intros [[Hnil|(o & (? & Hn & ?)%getObjectByName_first)]
             |(o & (? & Hn & ?)%getObjectByName_first)].
      * by apply elem_of_nil in Hnil.
      * exists o. split_and!; [done | by left | by rewrite Hn].
      * exists o. split_and!; [done | by right | by rewrite Hn].
    + intros (o & Hi & [Hn|Hn] & Hfirst); [left; right | right]; exists o;
        apply getObjectByName_first; rewrite <- Hn; done.
Qed.

Lemma doors_are_first_of_their_name_witness :
  doors (collectCarParts shadowedTrimCar emptyCarParts) = Some [4].
Proof.
  destruct (doors_are_first_of_their_name shadowedTrimCar)
    as (ds & Hds & _). rewrite Hds. injection Hds as <-. reflexivity.
Defined.

(** ** [initCar] and the shadow plane *)

Lemma traverse_add root child :
  traverse (add root child)
  = (add root child :: List.tail (traverse root) ++ traverse child)%list.
Proof.
  destruct root as [n m cs]. unfold add. simpl. f_equal.
  rewrite flat_map_app. simpl. by rewrite app_nil_r.
Qed.

Lemma lookup_shadow root :
  traverse (add root shadow) !! length (traverse root) = Some shadow.
Proof.
  rewrite traverse_add. destruct root as [n m cs]. simpl.
  rewrite lookup_app_r by done. by rewrite Nat.sub_diag.
Qed.

Lemma body_rules_nil_iff root :
  collectPatternBody root (collectExplicitBody root []) = []
  ↔ collectMeshesByNamePattern root bodyRegex = [].
Proof.
  split; intros H; apply elem_of_nil_inv; intros x Hx.
  - assert (x ∈ collectPatternBody root (collectExplicitBody root []))
      as Hin by (apply elem_of_body_rules;
                 by apply elem_of_collectMeshesByNamePattern).
    rewrite H in Hin. by apply elem_of_nil in Hin.
  - apply elem_of_body_rules, elem_of_collectMeshesByNamePattern in Hx.
    rewrite H in Hx. by apply elem_of_nil in Hx.
Qed.

(** X7: on the first load, with the materials in place, [initCar] returns and
    leaves a body group that is never empty, so that [ensureCarReady] holds
    from then on.  The shadow plane that [initCar] adds to the model is in the
    body group exactly when no mesh matches the body pattern (the fallback
    takes it for a body part); it is never a rim and never glass. *)
Theorem initCar_body_never_empty
    (gltfChild : Object3D) (s : State) (lib : Lib.t) :
  materialsLib s = Some lib →
  carParts s = emptyCarParts →
  let model := add gltfChild shadow in
  let shadowRef : NodeRef := length (traverse gltfChild) in
  ∃ s',
    initCar gltfChild s = Returned s'
    ∧ carModel s' = Some model
    ∧ traverse model !! shadowRef = Some shadow
    ∧ body (carParts s') ≠ []
    ∧ ensureCarReady s' = (s', true)
    ∧ (shadowRef ∈ body (carParts s')
       ↔ collectMeshesByNamePattern model bodyRegex = [])
    ∧ (shadowRef ∉ rims (carParts s'))
    ∧ (shadowRef ∉ glass (carParts s')).
Proof.
  intros Hlib Hparts model shadowRef.
  pose proof (lookup_shadow gltfChild) as Hshadow. fold model shadowRef in Hshadow.
  unfold initCar, updateMaterials. fold model. simpl. rewrite Hlib, Hparts.
  eexists. split; [reflexivity|]. simpl.
  assert (shadowRef ∈ collectBody model []
          ↔ collectMeshesByNamePattern model bodyRegex = []) as Hiff.
  { split.
    - intros Hin.
      destruct (collectPatternBody model (collectExplicitBody model []))
        as [|x l] eqn:Hsteps; [by apply body_rules_nil_iff|].
      rewrite body_rules_nonempty_no_fallback in Hin by (by rewrite Hsteps).
      apply elem_of_body_rules in Hin as (o & Ho & _ & Hre).
      pose proof (eq_trans (eq_sym Hshadow) Ho) as [= <-].
      by vm_compute in Hre.
    - intros Hnil%body_rules_nil_iff. unfold collectBody.
      rewrite Hnil.
      change (collectFallbackBody model [])
        with (fold_left fallbackVisit (nodes model) []).
      apply elem_of_fold_fallbackVisit. right. exists shadow.
      split_and!; [by apply elem_of_nodes | done..]. }
  assert (collectBody model [] ≠ []) as Hne.
  { destruct (collectPatternBody model (collectExplicitBody model []))
      as [|x l] eqn:Hsteps.
    - apply body_rules_nil_iff, Hiff in Hsteps. intros Hnil.
      rewrite Hnil in Hsteps. by apply elem_of_nil in Hsteps.
    - rewrite body_rules_nonempty_no_fallback; by rewrite Hsteps. }
  split_and!; [done | done | done | | done | |].
  - unfold ensureCarReady. simpl.
    destruct (collectBody model []); [done|]. reflexivity.
  - intros (o & Ho & _ & Hn)%elem_of_collectRims.
    pose proof (eq_trans (eq_sym Hshadow) Ho) as [= <-].
    revert Hn. compute_done.
  - intros (o & Ho & _ & [Hre|Hn])%elem_of_collectGlass;
      pose proof (eq_trans (eq_sym Hshadow) Ho) as [= <-];
      [by vm_compute in Hre | done].
Qed.

Lemma initCar_body_never_empty_witness :
  body (carParts (finalState (initCar plainCar loadingState))) = [1; 2; 3]
  ∧ body (carParts (finalState (initCar namedCar loadingState))) ≠ [].
Proof.
  split; [reflexivity|].
  destruct (initCar_body_never_empty namedCar loadingState _ eq_refl eq_refl)
    as (s' & Hret & _ & _ & Hne & _).
  by rewrite Hret.
Defined.

(** ** [updateMaterials], part by part *)

(** X8: with the materials in place [updateMaterials] changes nothing but the
    materials of the parts.  A part of the glass group gets the selected glass
    material; failing that, a part of the rims group gets the selected rim
    material; failing that, a part of the body group gets the selected body
    material; every other object keeps what it had.  A selector with nothing
    selected hands out [undefined]. *)
Theorem updateMaterials_last_group_wins (s : State) (lib : Lib.t) :
  materialsLib s = Some lib →
  ∃ store,
    updateMaterials s = Returned (set_material store s)
    ∧ (∀ i : NodeRef,
         store !! i
         = if decide (i ∈ glass (carParts s))
           then Some (glassAt (selectedIndex (glassMatSelect s)) lib)
           else if decide (i ∈ rims (carParts s))
           then Some (mainAt (selectedIndex (rimMatSelect s)) lib)
           else if decide (i ∈ body (carParts s))
           then Some (mainAt (selectedIndex (bodyMatSelect s)) lib)
           else material s !! i)
    ∧ mainAt (-1) lib = Undefined ∧ glassAt (-1) lib = Undefined
    ∧ (∀ j : nat,
         mainAt (Z.of_nat j) lib
         = if decide (j < length (Lib.main lib))%nat then MainMaterial j
           else Undefined).
Proof.
  intros Hlib. unfold updateMaterials. rewrite Hlib.
  eexists. split; [reflexivity|]. split_and!; [|done..|].
  - intros i. rewrite !lookup_assignMaterial.
    repeat case_bool_decide; repeat case_decide; done.
  - intros j. unfold mainAt, at_index.
    rewrite (proj2 (Z.ltb_ge _ _)) by lia. rewrite Nat2Z.id.
    case_decide as Hj.
    + apply lookup_lt_is_Some in Hj as [m ->]. done.
    + by rewrite lookup_ge_None_2 by lia.
Qed.

Lemma updateMaterials_last_group_wins_witness :
  material (finalState (updateMaterials readyState)) !! 3
  = Some (GlassMaterial 0).
Proof.
  destruct (updateMaterials_last_group_wins readyState _ eq_refl)
    as (store & Hret & Hstore & _).
  rewrite Hret. simpl. rewrite Hstore. reflexivity.
Defined.

(** ** Selectors *)

Lemma at_index_of_nat {A : Type} (arr : list A) (j : nat) :
  at_index arr (Z.of_nat j) = arr !! j.
Proof.
  unfold at_index. rewrite (proj2 (Z.ltb_ge _ _)) by lia. by rewrite Nat2Z.id.
Qed.

(** Setting a selector to a value it offers selects the first option with
    that value; any other value leaves nothing selected. *)
Lemma setValue_offered sel v :
  v ∈ options sel →
  ∃ j : nat,
    selectedIndex (setValue sel v) = Z.of_nat j ∧ options sel !! j = Some v
    ∧ value (setValue sel v) = v.
Proof.
  intros Hin. unfold setValue, value. simpl.
  destruct (list_find (λ o, o = v) (options sel)) as [[j x]|] eqn:Hfind.
  - apply list_find_Some in Hfind as (Hj & -> & _).
    exists j. rewrite at_index_of_nat, Hj. done.
  - apply list_find_None in Hfind. rewrite Forall_forall in Hfind.
    by destruct (Hfind v Hin).
Qed.

Lemma setValue_not_offered sel v :
  v ∉ options sel →
  selectedIndex (setValue sel v) = (-1)%Z ∧ value (setValue sel v) = "".
Proof.
  intros Hin. unfold setValue, value. simpl.
  destruct (list_find (λ o, o = v) (options sel)) as [[j x]|] eqn:Hfind; [|done].
  apply list_find_Some in Hfind as (Hj & -> & _).
  destruct Hin. by eapply list_elem_of_lookup_2.
Qed.

Lemma firstNamed_first {A : Type} (nameOf : A → string) text
    (pre : list A) (x : A) (post : list A) :
  Forall (λ e, includes text (toLowerCase (nameOf e)) = false) pre →
  includes text (toLowerCase (nameOf x)) = true →
  firstNamed nameOf text (pre ++ x :: post)%list = Some x.
Proof.
  unfold firstNamed. induction 1 as [|e l He _ IH]; simpl; intros Hx.
  - by rewrite Hx.
  - rewrite He. by apply IH.
Qed.

Lemma firstNamed_Some {A : Type} (nameOf : A → string) text
    (entries : list A) (x : A) :
  firstNamed nameOf text entries = Some x →
  x ∈ entries ∧ includes text (toLowerCase (nameOf x)) = true.
Proof.
  unfold firstNamed. intros [Hin Hx]%find_some.
  split; [by apply list_elem_of_In | done].
Qed.

(** ** What [updateMaterials] and [updateLighting] leave alone *)

Lemma updateMaterials_with_lib s lib :
  materialsLib s = Some lib →
  updateMaterials s
  = Returned
      (set_material
         (assignMaterial (glassAt (selectedIndex (glassMatSelect s)) lib)
            (glass (carParts s))
            (assignMaterial (mainAt (selectedIndex (rimMatSelect s)) lib)
               (rims (carParts s))
               (assignMaterial (mainAt (selectedIndex (bodyMatSelect s)) lib)
                  (body (carParts s)) (material s))))
         s).
Proof. intros Hlib. unfold updateMaterials. by rewrite Hlib. Qed.

(** [updateLighting] changes the visibility of lights and nothing else. *)
Lemma updateLighting_frame s :
  ∃ vis, finalState (updateLighting s) = set_visible vis s.
Proof.
  unfold updateLighting.
  destruct (negb _); [destruct (getProperty _ _)|]; simpl; eauto.
Qed.

Lemma not_a_prototype_key mode :
  mode ∈ allLights.*1 ∨ mode = "" →
  getProperty allLights mode ≠ Inherited.
Proof.
  unfold getProperty. destruct (assoc mode allLights); [done|].
  intros H. rewrite bool_decide_eq_false_2; [done|].
  revert H. generalize mode. clear mode.
  assert (Forall (λ k, k ∉ objectPrototypeKeys) ("" :: allLights.*1))
    as Hall by compute_done.
  rewrite Forall_forall in Hall.
  intros mode [?| ->]; apply Hall; [by right | by left].
Qed.

(** With a preset key or nothing selected, [updateLighting] returns. *)
Lemma updateLighting_returns s :
  value (lightingSelect s) ∈ allLights.*1 ∨ value (lightingSelect s) = "" →
  updateLighting s = Returned (finalState (updateLighting s)).
Proof.
  intros H%not_a_prototype_key. unfold updateLighting.
  destruct (negb _); [|done]. by destruct (getProperty _ _).
Qed.

Lemma updateLighting_after_setValue s option :
  option ∈ allLights.*1 →
  ∃ vis,
    updateLighting (set_lightingSelect (setValue (lightingSelect s) option) s)
    = Returned
        (set_visible vis
           (set_lightingSelect (setValue (lightingSelect s) option) s)).
Proof.
  intros Hopt.
  set (s1 := set_lightingSelect (setValue (lightingSelect s) option) s).
  destruct (updateLighting_frame s1) as [vis Hvis]. exists vis.
  rewrite updateLighting_returns; [by rewrite Hvis|].
  subst s1. simpl.
  destruct (decide (option ∈ options (lightingSelect s))) as [Hin|Hin].
  - destruct (setValue_offered _ _ Hin) as (_ & _ & _ & ->). by left.
  - destruct (setValue_not_offered _ _ Hin) as [_ ->]. by right.
Qed.

(** ** Commands that apply *)

Section AppliedCommands.

Variable openDoors : State → State.

(** X9: a text with body or paint (and not both open and door) sets the body
    selector to the first main material, in declaration order, whose name
    occurs in the text, whatever other keywords the text holds; the reply
    names it, and the rim, glass and lighting selectors, the lights and the
    part groups stay as they were.  With the body menu filled from the
    library, the selector then shows that name, and every body part outside
    the rims and glass groups carries a main material of that name. *)
Theorem body_command_selects_first_named
    (str : string) (s : State) (lib : Lib.t)
    (pre : list Material.t) (mat : Material.t) (post : list Material.t) :
  let text := toLowerCase str in
  materialsLib s = Some lib →
  includes text "open" && includes text "door" = false →
  includes text "body" || includes text "paint" = true →
  Lib.main lib = (pre ++ mat :: post)%list →
  Forall (λ m, includes text (toLowerCase (Material.name m)) = false) pre →
  includes text (toLowerCase (Material.name mat)) = true →
  ∃ s',
    handleCommand openDoors (RawString str) s = Returned s'
    ∧ chatLog s'
      = (chatLog s ++ [(Bot, BodyColorSet (Material.name mat))])%list
    ∧ bodyMatSelect s' = setValue (bodyMatSelect s) (Material.name mat)
    ∧ rimMatSelect s' = rimMatSelect s
    ∧ glassMatSelect s' = glassMatSelect s
    ∧ lightingSelect s' = lightingSelect s
    ∧ visible s' = visible s
    ∧ carParts s' = carParts s
    ∧ (options (bodyMatSelect s) = Material.name <$> Lib.main lib →
       value (bodyMatSelect s') = Material.name mat
       ∧ ∃ (j : nat) (m : Material.t),
           Lib.main lib !! j = Some m
           ∧ Material.name m = Material.name mat
           ∧ ∀ i : NodeRef,
               i ∈ body (carParts s) → i ∉ rims (carParts s) →
               i ∉ glass (carParts s) →
               material s' !! i = Some (MainMaterial j)).
Proof.
  intros text Hlib Hdoor Hkey Hmain Hpre Hmat.
  unfold handleCommand, bodyIntent. simpl. fold text.
  assert (firstNamed Material.name text (Lib.main lib) = Some mat) as Hfirst
    by (rewrite Hmain; by apply firstNamed_first).
  rewrite Hdoor, Hkey, Hlib. cbv beta iota. rewrite Hfirst.
  rewrite (updateMaterials_with_lib _ lib) by done. cbn [bind].
  eexists. split; [reflexivity|]. split_and!; try reflexivity.
  intros Hopts.
  assert (Material.name mat ∈ options (bodyMatSelect s)) as Hin.
  { rewrite Hopts, Hmain. apply list_elem_of_fmap. exists mat.
    split; [done|]. apply elem_of_app. right. by left. }
  destruct (setValue_offered _ _ Hin) as (j & Hj & Hopt & Hval).
  split; [done|].
  rewrite Hopts, list_lookup_fmap in Hopt.
  destruct (Lib.main lib !! j) as [m|] eqn:Hm; [|done].
  injection Hopt as Hname. exists j, m. split_and!; [done..|].
  intros i Hb Hr Hg.
  cbn [material addMessage set_material set_bodyMatSelect set_rimMatSelect
         set_glassMatSelect bodyMatSelect rimMatSelect glassMatSelect carParts].
  rewrite !lookup_assignMaterial.
  rewrite (bool_decide_eq_false_2 _ Hg), (bool_decide_eq_false_2 _ Hr),
    (bool_decide_eq_true_2 _ Hb).
  rewrite Hj. unfold mainAt. by rewrite at_index_of_nat, Hm, Nat2Z.id.
Qed.



End AppliedCommands.

Lemma body_command_selects_first_named_witness :
  value (bodyMatSelect
           (finalState
              (handleCommand id (RawString "Paint the rims WHITE or blue")
                             readyState)))
  = "blue".
Proof.
  destruct (body_command_selects_first_named id
              "Paint the rims WHITE or blue" readyState _
              [Material.mk "orange" 0xff4400] (Material.mk "blue" 0x001166) _
              eq_refl eq_refl eq_refl eq_refl)
    as (s' & Hret & _ & _ & _ & _ & _ & _ & _ & Hmenu);
    [compute_done | reflexivity |].
  rewrite Hret. apply Hmenu. reflexivity.
Defined.



(** ** What every command keeps *)

Lemma lightingIntent_returns text s :
  ∃ s' t,
    lightingIntent text s = Returned s'
    ∧ chatLog s' = (chatLog s ++ [(Bot, t)])%list
    ∧ carModel s' = carModel s ∧ carParts s' = carParts s
    ∧ materialsLib s' = materialsLib s
    ∧ bodyMatSelect s' = bodyMatSelect s ∧ rimMatSelect s' = rimMatSelect s
    ∧ glassMatSelect s' = glassMatSelect s ∧ material s' = material s.
Proof.
  unfold lightingIntent.
  destruct (_ || _); [|by eexists _, _].
  destruct (firstNamed id text allLights.*1) as [option|] eqn:Hopt;
    [|by eexists _, _].
  apply firstNamed_Some in Hopt as [Hopt _].
  destruct (updateLighting_after_setValue s option Hopt) as [vis ->].
  by eexists _, _.
Qed.

Lemma glassIntent_returns text s lib :
  materialsLib s = Some lib →
  ∃ s' t,
    glassIntent text s = Returned s'
    ∧ chatLog s' = (chatLog s ++ [(Bot, t)])%list
    ∧ carModel s' = carModel s ∧ carParts s' = carParts s
    ∧ materialsLib s' = Some lib
    ∧ bodyMatSelect s' = bodyMatSelect s ∧ rimMatSelect s' = rimMatSelect s.
Proof.
  intros Hlib.
  assert (∃ s' t,
    lightingIntent text s = Returned s'
    ∧ chatLog s' = (chatLog s ++ [(Bot, t)])%list
    ∧ carModel s' = carModel s ∧ carParts s' = carParts s
    ∧ materialsLib s' = Some lib
    ∧ bodyMatSelect s' = bodyMatSelect s ∧ rimMatSelect s' = rimMatSelect s)
    as Hlight.
  { destruct (lightingIntent_returns text s)
      as (s' & t & ? & ? & ? & ? & ? & ? & ? & _).
    exists s', t. split_and!; [done..|congruence|done|done]. }
  unfold glassIntent. destruct (includes text "glass"); [|done].
  rewrite Hlib.
  destruct (firstNamed Material.name text (Lib.glass lib)); [|done].
  rewrite (updateMaterials_with_lib _ lib) by done.
  by eexists _, _.
Qed.

Lemma bodyIntent_returns text s lib :
  materialsLib s = Some lib →
  ∃ s' t,
    bodyIntent text s = Returned s'
    ∧ chatLog s' = (chatLog s ++ [(Bot, t)])%list
    ∧ carModel s' = carModel s ∧ carParts s' = carParts s
    ∧ materialsLib s' = Some lib.
Proof.
  intros Hlib.
  assert (∃ s' t,
    glassIntent text s = Returned s'
    ∧ chatLog s' = (chatLog s ++ [(Bot, t)])%list
    ∧ carModel s' = carModel s ∧ carParts s' = carParts s
    ∧ materialsLib s' = Some lib) as Hglass.
  { destruct (glassIntent_returns text s lib Hlib)
      as (s' & t & ? & ? & ? & ? & ? & _).
    by exists s', t. }
  assert (∃ s' t,
    rimIntent text s = Returned s'
    ∧ chatLog s' = (chatLog s ++ [(Bot, t)])%list
    ∧ carModel s' = carModel s ∧ carParts s' = carParts s
    ∧ materialsLib s' = Some lib) as Hrim.
  { unfold rimIntent. destruct (_ || _); [|done]. rewrite Hlib.
    destruct (firstNamed Material.name text (Lib.main lib)); [|done].
    rewrite (updateMaterials_with_lib _ lib) by done.
    by eexists _, _. }
  unfold bodyIntent. destruct (_ || _); [|done]. rewrite Hlib.
  destruct (firstNamed Material.name text (Lib.main lib)); [|done].
  rewrite (updateMaterials_with_lib _ lib) by done.
  by eexists _, _.
Qed.

Lemma toLowerCaseChar_idempotent c :
  toLowerCaseChar (toLowerCaseChar c) = toLowerCaseChar c.
Proof. by destruct c as [[] [] [] [] [] [] [] []]. Qed.

Lemma toLowerCase_idempotent s : toLowerCase (toLowerCase s) = toLowerCase s.
Proof.
  induction s as [|c s IH]; simpl; [done|].
  by rewrite toLowerCaseChar_idempotent, IH.
Qed.

Section EveryCommand.

Variable openDoors : State → State.


(** X13: a text with body or paint never changes the rim selector, even when
    it also says rim: the body intent takes the material named in the text,
    and when no main material is named the rim intent finds none either. *)
Theorem body_keyword_blocks_rim (str : string) (s : State) :
  let text := toLowerCase str in
  includes text "open" && includes text "door" = false →
  includes text "body" || includes text "paint" = true →
  rimMatSelect (finalState (handleCommand openDoors (RawString str) s))
  = rimMatSelect s.
Proof.
  intros text Hdoor Hkey. unfold handleCommand, bodyIntent.
  simpl orEmpty. fold text. rewrite Hdoor, Hkey.
  destruct (materialsLib s) as [lib|] eqn:Hlib; [|done].
  destruct (firstNamed Material.name text (Lib.main lib)) eqn:Hfirst.
  - by rewrite (updateMaterials_with_lib _ lib).
  - assert (rimIntent text s = glassIntent text s) as ->.
    { unfold rimIntent. rewrite Hlib, Hfirst.
      by destruct (includes text "rim" || includes text "details"). }
    destruct (glassIntent_returns text s lib Hlib)
      as (s' & t & -> & _ & _ & _ & _ & _ & Hrim).
    done.
Qed.

(** X14: once the materials exist, a command that is not the door command
    always returns and adds exactly one line, by the bot, to the log; it
    leaves the car model, the part groups and the material library alone,
    so the same holds for the next command. *)
Theorem handleCommand_returns_with_materials
    (raw : Raw) (s : State) (lib : Lib.t) :
  let text := toLowerCase (orEmpty raw) in
  materialsLib s = Some lib →
  includes text "open" && includes text "door" = false →
  ∃ s' t,
    handleCommand openDoors raw s = Returned s'
    ∧ chatLog s' = (chatLog s ++ [(Bot, t)])%list
    ∧ carModel s' = carModel s ∧ carParts s' = carParts s
    ∧ materialsLib s' = Some lib.
Proof.
  intros text Hlib Hdoor. unfold handleCommand. fold text. rewrite Hdoor.
  destruct (bodyIntent_returns text s lib Hlib)
    as (s' & t & ? & ? & ? & ? & ?).
  by exists s', t.
Qed.

(** X15: before the materials exist, a command that is not the door command
    throws exactly when its text holds one of the material keywords body,
    paint, rim, details, glass, and then nothing has changed, not even the
    log; any other command returns with one more line in the log. *)
Theorem handleCommand_before_materials (raw : Raw) (s : State) :
  let text := toLowerCase (orEmpty raw) in
  materialsLib s = None →
  includes text "open" && includes text "door" = false →
  (existsb (includes text) ["body"; "paint"; "rim"; "details"; "glass"] = true →
   handleCommand openDoors raw s = Thrown TypeError s)
  ∧ (existsb (includes text) ["body"; "paint"; "rim"; "details"; "glass"]
     = false →
     ∃ s' t,
       handleCommand openDoors raw s = Returned s'
       ∧ chatLog s' = (chatLog s ++ [(Bot, t)])%list).
Proof.
  intros text Hlib Hdoor.
  unfold handleCommand, bodyIntent, rimIntent, glassIntent. fold text.
  rewrite Hdoor, Hlib. cbn [existsb].
  destruct (includes text "body"), (includes text "paint"),
    (includes text "rim"), (includes text "details"), (includes text "glass");
    simpl; split; try done.
  intros _. destruct (lightingIntent_returns text s) as (s' & t & ? & ? & _).
  by exists s', t.
Qed.

(** X16: the handler does not tell upper case from lower case: a text and
    its lower-cased form have the same effect, reply included. *)
Theorem handleCommand_ignores_case (str : string) (s : State) :
  handleCommand openDoors (RawString (toLowerCase str)) s
  = handleCommand openDoors (RawString str) s.
Proof.
  unfold handleCommand. simpl orEmpty. by rewrite toLowerCase_idempotent.
Qed.

End EveryCommand.


Lemma body_keyword_blocks_rim_witness :
  rimMatSelect
    (finalState (handleCommand id (RawString "paint the rims red") readyState))
  = rimMatSelect readyState.
Proof.
  apply (body_keyword_blocks_rim id "paint the rims red" readyState);
    reflexivity.
Defined.

Lemma handleCommand_returns_with_materials_witness :
  ∃ s' t,
    handleCommand id (RawString "banana") loadingState = Returned s'
    ∧ chatLog s' = (chatLog loadingState ++ [(Bot, t)])%list.
Proof.
  destruct (handleCommand_returns_with_materials id (RawString "banana")
              loadingState _ eq_refl eq_refl)
    as (s' & t & Hret & Hlog & _).
  by exists s', t.
Defined.

Lemma handleCommand_before_materials_witness :
  handleCommand id (RawString "smoked GLASS") startState
  = Thrown TypeError startState.
Proof.
  apply (proj1 (handleCommand_before_materials id (RawString "smoked GLASS")
                  startState eq_refl eq_refl)).
  reflexivity.
Defined.

(** ** Lights over time *)

Lemma atMostOnePreset_updateLighting s :
  atMostOnePreset (visible (finalState (updateLighting s))).
Proof.
  assert (∀ l, visible (finalState (updateLighting s)) l = true →
               ∃ lights, (value (lightingSelect s), lights) ∈ allLights
                         ∧ l ∈ lights) as Hvis.
  { intros l. rewrite visible_updateLighting.
    intros [_ Hl]%andb_true_iff.
    destruct (assoc _ allLights) as [lights|] eqn:Hassoc; [|done].
    apply bool_decide_eq_true in Hl. apply assoc_allLights in Hassoc. eauto. }
  intros p lp q lq l l' Hp Hq Hl Hl'
    (lights & Hm & Hin)%Hvis (lights' & Hm' & Hin')%Hvis.
  transitivity (value (lightingSelect s)).
  - exact (presets_share_no_light _ _ _ _ _ Hp Hm Hl Hin).
  - symmetry. exact (presets_share_no_light _ _ _ _ _ Hq Hm' Hl' Hin').
Qed.

Lemma visible_updateMaterials_step s (k : State → State) :
  (∀ s1, visible (k s1) = visible s1) →
  visible (finalState (s1 <- updateMaterials s ;; Returned (k s1)))
  = visible s.
Proof.
  intros Hk. unfold updateMaterials.
  destruct (materialsLib s); simpl; [|done]. by rewrite Hk.
Qed.

Lemma lightingIntent_visible text s :
  visible (finalState (lightingIntent text s)) = visible s
  ∨ ∃ s1, visible (finalState (lightingIntent text s))
          = visible (finalState (updateLighting s1)).
Proof.
  unfold lightingIntent.
  destruct (_ || _); [|by left].
  destruct (firstNamed id text allLights.*1) as [option|] eqn:Hopt;
    [|by left].
  apply firstNamed_Some in Hopt as [Hopt _]. right.
  exists (set_lightingSelect (setValue (lightingSelect s) option) s).
  by destruct (updateLighting_after_setValue s option Hopt) as [vis ->].
Qed.

Lemma bodyIntent_visible text s :
  visible (finalState (bodyIntent text s)) = visible s
  ∨ ∃ s1, visible (finalState (bodyIntent text s))
          = visible (finalState (updateLighting s1)).
Proof.
  pose proof (lightingIntent_visible text s) as Hlight.
  assert (visible (finalState (glassIntent text s)) = visible s
          ∨ ∃ s1, visible (finalState (glassIntent text s))
                  = visible (finalState (updateLighting s1))) as Hglass.
  { unfold glassIntent. destruct (includes text "glass"); [|done].
    destruct (materialsLib s) as [lib|] eqn:Hlib; [|by left].
    destruct (firstNamed Material.name text (Lib.glass lib)); [|done].
    left. by rewrite visible_updateMaterials_step. }
  assert (visible (finalState (rimIntent text s)) = visible s
          ∨ ∃ s1, visible (finalState (rimIntent text s))
                  = visible (finalState (updateLighting s1))) as Hrim.
  { unfold rimIntent. destruct (_ || _); [|done].
    destruct (materialsLib s) as [lib|] eqn:Hlib; [|by left].
    destruct (firstNamed Material.name text (Lib.main lib)); [|done].
    left. by rewrite visible_updateMaterials_step. }
  unfold bodyIntent. destruct (_ || _); [|done].
  destruct (materialsLib s) as [lib|] eqn:Hlib; [|by left].
  destruct (firstNamed Material.name text (Lib.main lib)); [|done].
  left. by rewrite visible_updateMaterials_step.
Qed.

(** X17: what [updateLighting] leaves visible depends on the selected name
    alone, not on which lights were visible before; running it twice is as
    good as running it once; and it changes nothing but the lights. *)
Theorem updateLighting_forgets_history (s : State) :
  (∀ s2 : State,
     value (lightingSelect s2) = value (lightingSelect s) →
     ∀ l : Light,
       visible (finalState (updateLighting s2)) l
       = visible (finalState (updateLighting s)) l)
  ∧ (∀ l : Light,
       visible (finalState (updateLighting (finalState (updateLighting s)))) l
       = visible (finalState (updateLighting s)) l)
  ∧ ∃ vis, finalState (updateLighting s) = set_visible vis s.
Proof.
  split_and!.
  - intros s2 Hval l. by rewrite !visible_updateLighting, Hval.
  - intros l. rewrite !visible_updateLighting.
    by destruct (updateLighting_frame s) as [vis ->].
  - apply updateLighting_frame.
Qed.

Lemma updateLighting_forgets_history_witness :
  visible (finalState (updateLighting pageState)) ambient
  = visible (finalState (updateLighting startState)) ambient.
Proof.
  apply (proj1 (updateLighting_forgets_history startState) pageState).
  reflexivity.
Defined.

(** X18: that lights of at most one preset are visible holds after
    [initLights] and is kept by every command, as long as the door action
    leaves the lights alone; [updateMaterials] does not touch the lights. *)
Theorem at_most_one_preset_is_kept (openDoors : State → State) :
  (∀ s0, visible (openDoors s0) = visible s0) →
  (∀ s, atMostOnePreset (visible (initLights s)))
  ∧ (∀ raw s,
       atMostOnePreset (visible s) →
       atMostOnePreset (visible (finalState (handleCommand openDoors raw s))))
  ∧ (∀ s, visible (finalState (updateMaterials s)) = visible s).
Proof.
  intros Hdoors. split_and!.
  - intros s p lp q lq l l' _ _ _ _ Hl _. unfold initLights in Hl.
    cbn [visible set_visible] in Hl.
    rewrite setVisible_lookup, bool_decide_eq_true_2 in Hl; [done|].
    apply every_light_in_a_preset.
  - intros raw s Hinv. unfold handleCommand.
    destruct (_ && _); [cbn [finalState visible addMessage]; by rewrite Hdoors|].
    destruct (bodyIntent_visible (toLowerCase (orEmpty raw)) s)
      as [->|[s1 ->]]; [done|].
    apply atMostOnePreset_updateLighting.
  - intros s. unfold updateMaterials. by destruct (materialsLib s).
Qed.

Lemma at_most_one_preset_is_kept_witness :
  atMostOnePreset
    (visible (finalState (handleCommand id (RawString "showroom lighting")
                                        (initLights pageState)))).
Proof.
  destruct (at_most_one_preset_is_kept id (λ s0, eq_refl)) as (Hinit & Hcmd & _).
  apply Hcmd, Hinit.
Defined.

(** ** [setMeshColor] again *)

Lemma tint_tint c1 c2 m :
  MeshColor.tint c2 (MeshColor.tint c1 m) = MeshColor.tint c2 m.
Proof. by destruct m as [[[[h []]|] nu]|]. Qed.

(** X19: tinting a mesh twice is the same as tinting it once with the second
    colour; in particular tinting again with the same colour changes
    nothing.  Which entries can be tinted never changes. *)
Theorem setMeshColor_last_colour_wins
    (mesh : option MeshColor.Mesh) (c1 c2 : Z) :
  MeshColor.setMeshColor (MeshColor.setMeshColor mesh c1) c2
  = MeshColor.setMeshColor mesh c2
  ∧ MeshColor.setMeshColor (MeshColor.setMeshColor mesh c1) c1
    = MeshColor.setMeshColor mesh c1
  ∧ ∀ m, MeshColor.settable (MeshColor.tint c1 m) = MeshColor.settable m.
Proof.
  assert (∀ c, MeshColor.setMeshColor (MeshColor.setMeshColor mesh c1) c
               = MeshColor.setMeshColor mesh c) as Hlast.
  { intros c. destruct mesh as [[[m|ms]]|]; [| |done].
    - unfold MeshColor.setMeshColor, MeshColor.storeMats, MeshColor.mats.
      simpl. by rewrite tint_tint.
    - unfold MeshColor.setMeshColor, MeshColor.storeMats, MeshColor.mats.
      simpl. rewrite List.map_map. do 3 f_equal.
      apply List.map_ext. intros m. apply tint_tint. }
  split_and!; [apply Hlast | apply Hlast |].
  by intros [[[[h []]|] nu]|].
Qed.

(** ** The material menus *)

Lemma options_after_main (l : list Material.t) s :
  let s' :=
    fold_left
      (λ st mat,
         set_rimMatSelect (addOption (Material.name mat) (rimMatSelect st))
           (set_bodyMatSelect
              (addOption (Material.name mat) (bodyMatSelect st)) st))
      l s in
  options (bodyMatSelect s')
  = (options (bodyMatSelect s) ++ (Material.name <$> l))%list
  ∧ options (rimMatSelect s')
    = (options (rimMatSelect s) ++ (Material.name <$> l))%list
  ∧ glassMatSelect s' = glassMatSelect s
  ∧ s' = set_rimMatSelect (rimMatSelect s')
           (set_bodyMatSelect (bodyMatSelect s') s).
Proof.
  revert s. induction l as [|mat l IH]; intros s; cbn [fold_left fmap list_fmap].
  - rewrite !app_nil_r. by destruct s.
  - destruct (IH (set_rimMatSelect
                    (addOption (Material.name mat) (rimMatSelect s))
                    (set_bodyMatSelect
                       (addOption (Material.name mat) (bodyMatSelect s)) s)))
      as (Hb & Hr & Hg & Hs).
    cbv zeta in *. rewrite Hb, Hr, Hg. cbn -[fold_left].
    rewrite <- !app_assoc. split_and!; [done..|].
    rewrite Hs at 1. reflexivity.
Qed.

Lemma options_after_glass (l : list Material.t) s :
  let s' :=
    fold_left
      (λ st mat,
         set_glassMatSelect
           (addOption (Material.name mat) (glassMatSelect st)) st)
      l s in
  options (glassMatSelect s')
  = (options (glassMatSelect s) ++ (Material.name <$> l))%list
  ∧ s' = set_glassMatSelect (glassMatSelect s') s.
Proof.
  revert s. induction l as [|mat l IH]; intros s; cbn [fold_left fmap list_fmap].
  - rewrite !app_nil_r. by destruct s.
  - destruct (IH (set_glassMatSelect
                    (addOption (Material.name mat) (glassMatSelect s)) s))
      as (Hg & Hs).
    cbv zeta in *. rewrite Hg. cbn -[fold_left].
    rewrite <- !app_assoc. split; [done|].
    rewrite Hs at 1. reflexivity.
Qed.

Lemma value_setSelectedIndex sel (j : nat) :
  value (setSelectedIndex sel (Z.of_nat j)) = default "" (options sel !! j).
Proof.
  unfold value, setSelectedIndex. simpl.
  destruct (decide (j < length (options sel))%nat) as [Hj|Hj].
  - rewrite (proj2 (Z.leb_le _ _)), (proj2 (Z.ltb_lt _ _)) by lia. simpl.
    by rewrite at_index_of_nat.
  - rewrite (proj2 (Z.ltb_ge _ _)) by lia. rewrite andb_false_r.
    by rewrite lookup_ge_None_2 by lia.
Qed.

(** X20: [initMaterialSelectionMenus] throws while there is no material
    library.  With one, it appends the names of the main materials, in
    declaration order, to the body and rim menus and those of the glass
    materials to the glass menu, selects the fourth body option, the sixth
    rim option and the first glass option (nothing, where a menu is that
    short), and changes nothing else. *)
Theorem initMaterialSelectionMenus_fills_menus (s : State) :
  (materialsLib s = None →
   initMaterialSelectionMenus s = Thrown TypeError s)
  ∧ ∀ lib : Lib.t,
      materialsLib s = Some lib →
      ∃ s',
        initMaterialSelectionMenus s = Returned s'
        ∧ options (bodyMatSelect s')
          = (options (bodyMatSelect s) ++ (Material.name <$> Lib.main lib))%list
        ∧ options (rimMatSelect s')
          = (options (rimMatSelect s) ++ (Material.name <$> Lib.main lib))%list
        ∧ options (glassMatSelect s')
          = (options (glassMatSelect s)
             ++ (Material.name <$> Lib.glass lib))%list
        ∧ value (bodyMatSelect s')
          = default "" (options (bodyMatSelect s') !! 3%nat)
        ∧ value (rimMatSelect s')
          = default "" (options (rimMatSelect s') !! 5%nat)
        ∧ value (glassMatSelect s')
          = default "" (options (glassMatSelect s') !! 0%nat)
        ∧ s' = set_glassMatSelect (glassMatSelect s')
                 (set_rimMatSelect (rimMatSelect s')
                    (set_bodyMatSelect (bodyMatSelect s') s)).
Proof.
  split; [by intros H; unfold initMaterialSelectionMenus; rewrite H|].
  intros lib Hlib. unfold initMaterialSelectionMenus. rewrite Hlib.
  destruct (options_after_main (Lib.main lib) s) as (Hb & Hr & Hg & Hs1).
  cbv zeta in Hb, Hr, Hg, Hs1.
  set (s1 := fold_left _ (Lib.main lib) s) in *.
  destruct (options_after_glass (Lib.glass lib) s1) as (Hg2 & Hs2).
  cbv zeta in Hg2, Hs2.
  set (s2 := fold_left _ (Lib.glass lib) s1) in *.
  assert (bodyMatSelect s2 = bodyMatSelect s1) as Hb2 by (by rewrite Hs2).
  assert (rimMatSelect s2 = rimMatSelect s1) as Hr2 by (by rewrite Hs2).
  eexists. split; [reflexivity|].
  cbn [bodyMatSelect rimMatSelect glassMatSelect set_bodyMatSelect
       set_rimMatSelect set_glassMatSelect].
  split_and!.
  - by rewrite Hb2.
  - by rewrite Hr2.
  - etransitivity; [exact Hg2 | by rewrite Hg].
  - exact (value_setSelectedIndex _ 3).
  - exact (value_setSelectedIndex _ 5).
  - exact (value_setSelectedIndex _ 0).
  - assert (∃ b r g, s2 = set_glassMatSelect g
                             (set_rimMatSelect r (set_bodyMatSelect b s)))
      as (b & r & g & ->) by (rewrite Hs2, Hs1; eauto).
    reflexivity.
Qed.

Lemma initMaterialSelectionMenus_fills_menus_witness :
  value (bodyMatSelect loadingState) = "black"
  ∧ value (rimMatSelect loadingState) = "metallic"
  ∧ value (glassMatSelect loadingState) = "clear".
Proof.
  destruct (proj2 (initMaterialSelectionMenus_fills_menus
                     (initMaterials startState)) _ eq_refl)
    as (s' & Hret & Hb & Hr & Hg & Hvb & Hvr & Hvg & _).
  unfold loadingState. rewrite Hret. cbn [finalState].
  rewrite Hvb, Hvr, Hvg, Hb, Hr, Hg. by split_and!.
Defined.

(** ** Patterns *)

Lemma startsWith_trans s a b :
  startsWith s a = true → startsWith a b = true → startsWith s b = true.
Proof.
  revert s a. induction b as [|y b IH]; intros s a; [by destruct s|].
  destruct a as [|x a]; [done|]. destruct s as [|c s]; [done|]. simpl.
  intros [->%Ascii.eqb_eq Hs]%andb_true_iff [Hxy Ha]%andb_true_iff.
  rewrite Hxy. by apply (IH s a).
Qed.

Lemma startsWith_includes s a b :
  startsWith s a = true → includes a b = true → includes s b = true.
Proof.
  revert s. induction a as [|x a IH]; intros s Hs.
  - simpl. rewrite orb_false_r. intros Hb.
    destruct b; [by destruct s | done].
  - destruct s as [|c s]; [done|].
    cbn [includes]. intros [Hb|Hb]%orb_true_iff; apply orb_true_iff.
    + left. by apply startsWith_trans with (String x a).
    + right. simpl in Hs. apply andb_true_iff in Hs as [_ Hs]. by apply IH.
Qed.

(** A text that holds [a] holds every part of [a]. *)
Lemma includes_trans s a b :
  includes s a = true → includes a b = true → includes s b = true.
Proof.
  induction s as [|c s IH]; cbn [includes].
  - rewrite orb_false_r. intros Ha Hb.
    by apply (startsWith_includes "" a b).
  - intros [Ha|Ha]%orb_true_iff Hb.
    + by apply (startsWith_includes (String c s) a b).
    + change (includes (String c s) b)
        with (startsWith (String c s) b || includes s b).
      apply orb_true_iff. right. by apply IH.
Qed.

Lemma includes_subsumed s a b :
  includes a b = true → includes s b || includes s a = includes s b.
Proof.
  intros Hab. destruct (includes s b) eqn:Hb; [done|]. simpl.
  destruct (includes s a) eqn:Ha; [|done].
  by rewrite (includes_trans s a b Ha Hab) in Hb.
Qed.

(** X21: three alternatives in the patterns never decide.  In the body
    pattern carpaint is covered by paint; in the exclusion pattern of the
    fallback trim is covered by rim; and in the lighting intent the test for
    lighting is covered by the one for light. *)
Theorem patterns_have_dead_alternatives (n : string) :
  bodyRegex n
  = (wholeWord "body" n || includes n "paint" || includes n "bodywork"
     || includes n "car_body")
  ∧ exclusionRegex n
    = existsb (includes n)
        ["glass"; "rim"; "tire"; "wheel"; "logo"; "emblem"; "interior";
         "seat"; "light"; "lamp"]
  ∧ includes n "light" || includes n "lighting" = includes n "light".
Proof.
  split_and!.
  - unfold bodyRegex.
    rewrite <- (orb_assoc (wholeWord "body" n) (includes n "paint")).
    by rewrite (includes_subsumed n "carpaint" "paint").
  - unfold exclusionRegex, exclusionKeywords. cbn [existsb].
    rewrite <- (includes_subsumed n "trim" "rim") at 2 by done.
    by destruct (includes n "glass"), (includes n "rim"), (includes n "tire"),
      (includes n "wheel"), (includes n "trim").
  - by apply includes_subsumed.
Qed.

(** ** Sending a command *)






